(** * CrystalBallSimulator: the two-ball solver hook

    A shallow embedding of [src/hooks/useCrystalBallSolver.ts]: the planner
    (the [useMemo] computing [k] and the [useEffect] computing the first-phase
    sequence), the incremental [step], the batch [runAll] and [reset]; with
    them the [step] of the earlier single-file app and the computations
    [App.tsx] makes to draw the building from the hook's state.

    JavaScript numbers are modelled as [Z]: every value the hook computes from
    integer props is an integer, and [k * (k + 1)] is even, so the division by
    two in the planner is exact.  Arrays are [list Z]; [null] is [None]. *)

From Equations Require Import Equations.
From Stdlib Require Import ZArith List Bool Lia String.
Import ListNotations.
Local Open Scope Z_scope.

(** ** The state of the hook ([src/types/solver.ts]) *)

Record SolverState : Type := mkState {
  sequence : list Z;
  drops : list Z;
  foundFloor : option Z;
  totalDrops : Z;
  finished : bool
}.

(** The value passed to [useState] and the one [reset] installs. *)
Definition emptyState : SolverState :=
  {| sequence := []; drops := []; foundFloor := None;
     totalDrops := 0; finished := false |}.

(** ** Array primitives *)

(** [a.length] as a number. *)
Definition len (a : list Z) : Z := Z.of_nat (List.length a).

(** [a[i]]: [None] stands for [undefined] (index out of range). *)
Definition get (a : list Z) (i : Z) : option Z :=
  if i <? 0 then None else nth_error a (Z.to_nat i).

(** [a.push(x)] appends at the end. *)
Definition push (a : list Z) (x : Z) : list Z := a ++ [x].

(** [a.findIndex(p)]: the index of the first element satisfying [p],
    [-1] when there is none. *)
Fixpoint findIndexFrom (p : Z -> bool) (a : list Z) (i : Z) : Z :=
  match a with
  | [] => -1
  | d :: a' => if p d then i else findIndexFrom p a' (i + 1)
  end.

Definition findIndex (p : Z -> bool) (a : list Z) : Z := findIndexFrom p a 0.

(** ** The planner *)

(** [while ((kLocal * (kLocal + 1)) / 2 < n) kLocal++; return kLocal;] *)
Equations? k_loop (n kLocal : Z) : Z by wf (Z.to_nat (n - kLocal)) lt :=
  k_loop n kLocal with Z_lt_dec ((kLocal * (kLocal + 1)) / 2) n => {
    | left _ := k_loop n (kLocal + 1);
    | right _ := kLocal }.
Proof.
  assert (kLocal < n); [| lia].
  assert (0 <= kLocal * (kLocal + 1) / 2) by (apply Z.div_pos; nia).
  destruct (Z_lt_dec kLocal 0); [lia |].
  assert (kLocal <= kLocal * (kLocal + 1) / 2); [| lia].
  apply Z.div_le_lower_bound; nia.
Qed.

(** [const k = useMemo(() => { let kLocal = 0; ... }, [n])] *)
Definition k (n : Z) : Z := k_loop n 0.

(** [while (current < n && step > 0) { seq.push(current); step -= 1; current += step; }]
    started with an accumulator [seq]. *)
Equations? seq_loop (n : Z) (seq : list Z) (step current : Z) : list Z
  by wf (Z.to_nat step) lt :=
  seq_loop n seq step current with Z_lt_dec current n => {
    | left _ with Z_gt_dec step 0 => {
      | left _ := seq_loop n (push seq current) (step - 1) (current + (step - 1));
      | right _ := seq };
    | right _ := seq }.
Proof.
  lia.
Qed.

(** ** The body of [useCrystalBallSolver({ n, secretF })] *)

(** What [step] returns: [{ action, floorTested?, broke? }]. *)
Record StepResult : Type := mkResult {
  action : string;
  floorTested : option Z;
  broke : option bool
}.

(** The locals of [runAll]: [simDrops], [found] and [total]. *)
Record Sim : Type := mkSim {
  simDrops : list Z;
  found : option Z;
  total : Z
}.

Section Hook.

Variables n secretF : Z.

(** [const testBreaks = (floor) => floor >= secretF] *)
Definition testBreaks (floor : Z) : bool := floor >=? secretF.

(** The [useEffect] that plans the sequence.  For [n <= 0] it calls [reset]. *)
Definition planEffect : SolverState :=
  if n <=? 0 then emptyState
  else
    let seq := seq_loop n [] (k n) (k n) in
    let seq :=
      if andb (len seq =? 0) (n >? 0) then push seq (Z.min (k n) (n - 1))
      else seq in
    {| sequence := seq; drops := []; foundFloor := None;
       totalDrops := 0; finished := false |}.

(** [reset] *)
Definition reset : SolverState := emptyState.

Definition finishedResult : StepResult :=
  {| action := "finished"; floorTested := None; broke := None |}.

(** The block under the comment "phase 1" of [step]: [Some] when it returns,
    [None] when control falls through to phase 2.  The read
    [state.sequence[firstPhaseIndex]] is guarded by the length test, so its
    [None] branch cannot be taken. *)
Definition step_phase1 (state : SolverState) : option (SolverState * StepResult) :=
  let pastBreakIndex := findIndex testBreaks (drops state) in
  if pastBreakIndex =? -1 then
    let firstPhaseIndex := len (drops state) in
    if firstPhaseIndex <? len (sequence state) then
      match get (sequence state) firstPhaseIndex with
      | Some floorToTest =>
          let broke := testBreaks floorToTest in
          Some ({| sequence := sequence state;
                   drops := drops state ++ [floorToTest];
                   foundFloor := foundFloor state;
                   totalDrops := totalDrops state + 1;
                   finished := finished state |},
                {| action := if broke then "break" else "safe";
                   floorTested := Some floorToTest;
                   broke := Some broke |})
      | None => None
      end
    else None
  else None.

(** The block under the comment "phase 2" of [step].  Both reads of
    [state.drops] are at indices below [brokeIndex + 1]; were one of them
    [undefined], [nextLinear <= breakFloor] would be false and control would
    fall through, which is what the [None] branches do. *)
Definition step_phase2 (state : SolverState) : option (SolverState * StepResult) :=
  let brokeIndex := findIndex testBreaks (drops state) in
  if negb (brokeIndex =? -1) then
    match get (drops state) brokeIndex,
          (if brokeIndex =? 0 then Some (-1) else get (drops state) (brokeIndex - 1)) with
    | Some breakFloor, Some prevSafe =>
        let nextLinear := prevSafe + 1 + (len (drops state) - (brokeIndex + 1)) in
        if nextLinear <=? breakFloor then
          let broke := testBreaks nextLinear in
          let newDrops := drops state ++ [nextLinear] in
          let newTotal := totalDrops state + 1 in
          if broke then
            Some ({| sequence := sequence state; drops := newDrops;
                     foundFloor := Some nextLinear; totalDrops := newTotal;
                     finished := true |},
                  {| action := "found"; floorTested := Some nextLinear;
                     broke := Some true |})
          else
            Some ({| sequence := sequence state; drops := newDrops;
                     foundFloor := foundFloor state; totalDrops := newTotal;
                     finished := finished state |},
                  {| action := "linear-safe"; floorTested := Some nextLinear;
                     broke := Some false |})
        else None
    | _, _ => None
    end
  else None.

(** [step]: the new state (the argument of [setState], or the old state when
    [setState] is not called) and the returned description. *)
Definition step (state : SolverState) : SolverState * StepResult :=
  if finished state then (state, finishedResult)
  else
    match step_phase1 state with
    | Some r => r
    | None =>
        match step_phase2 state with
        | Some r => r
        | None =>
            ({| sequence := sequence state; drops := drops state;
                foundFloor := foundFloor state; totalDrops := totalDrops state;
                finished := true |}, finishedResult)
        end
    end.

(** The body shared by the two linear loops of [runAll]:
    [simDrops.push(lin); total++; if (testBreaks(lin)) { found = lin; break; }].
    [true] in the second component means [break]. *)
Definition probe (sim : Sim) (lin : Z) : Sim * bool :=
  let sim' := {| simDrops := push (simDrops sim) lin; found := found sim;
                 total := total sim + 1 |} in
  if testBreaks lin
  then ({| simDrops := simDrops sim'; found := Some lin; total := total sim' |}, true)
  else (sim', false).

(** [for (let lin = ...; lin <= f; lin++) { ... }] *)
Equations? scan_le (f : Z) (sim : Sim) (lin : Z) : Sim
  by wf (Z.to_nat (f + 1 - lin)) lt :=
  scan_le f sim lin with Z_le_dec lin f => {
    | left _ with probe sim lin => {
      | (sim', true) := sim';
      | (sim', false) := scan_le f sim' (lin + 1) };
    | right _ := sim }.
Proof.
  lia.
Qed.

(** [for (let lin = ...; lin < n; lin++) { ... }] *)
Equations? scan_lt (sim : Sim) (lin : Z) : Sim
  by wf (Z.to_nat (n - lin)) lt :=
  scan_lt sim lin with Z_lt_dec lin n => {
    | left _ with probe sim lin => {
      | (sim', true) := sim';
      | (sim', false) := scan_lt sim' (lin + 1) };
    | right _ := sim }.
Proof.
  lia.
Qed.

(** [for (let i = 0; i < state.sequence.length; i++) { ... }], from index [i].
    The read [state.sequence[i]] is guarded by the loop test; the read
    [state.sequence[i - 1]] happens for [i >= 1] only. *)
Equations? first_phase (sequence : list Z) (sim : Sim) (i : Z) : Sim
  by wf (Z.to_nat (len sequence - i)) lt :=
  first_phase sequence sim i with Z_lt_dec i (len sequence) => {
    | left _ with get sequence i => {
      | Some f with testBreaks f => {
        | true with (if i =? 0 then Some (-1) else get sequence (i - 1)) => {
          | Some prevSafe :=
              scan_le f {| simDrops := push (simDrops sim) f; found := found sim;
                           total := total sim + 1 |} (prevSafe + 1);
          | None :=
              {| simDrops := push (simDrops sim) f; found := found sim;
                 total := total sim + 1 |} };
        | false :=
            first_phase sequence
              {| simDrops := push (simDrops sim) f; found := found sim;
                 total := total sim + 1 |} (i + 1) };
      | None := sim };
    | right _ := sim }.
Proof.
  lia.
Qed.

(** The fallback of [runAll]: [if (found === null) { ... }]. *)
Definition fallback (sim : Sim) : Sim :=
  match found sim with
  | Some _ => sim
  | None =>
      let lastTested :=
        if negb (len (simDrops sim) =? 0)
        then get (simDrops sim) (len (simDrops sim) - 1)
        else Some (-1) in
      match lastTested with
      | Some lastTested => scan_lt sim (lastTested + 1)
      | None => sim
      end
  end.

(** [runAll]: the new state and the returned [{ simDrops, total, found }]. *)
Definition runAll (state : SolverState) : SolverState * Sim :=
  let sim := first_phase (sequence state)
               {| simDrops := []; found := None; total := 0 |} 0 in
  let sim := fallback sim in
  let found :=
    match found sim with
    | Some x => x
    | None => if n =? 0 then 0 else n - 1
    end in
  ({| sequence := sequence state; drops := simDrops sim;
      foundFloor := Some found; totalDrops := total sim; finished := true |},
   {| simDrops := simDrops sim; found := Some found; total := total sim |}).

End Hook.

(** ** Driving [step] *)

(** [m] successive calls of [step], each on the state the previous one set. *)
Fixpoint steps (secretF : Z) (m : nat) (state : SolverState) : SolverState :=
  match m with
  | O => state
  | S m' => steps secretF m' (fst (step secretF state))
  end.

(** Calling [step] until [finished] is set; [None] when [fuel] calls were not
    enough. *)
Fixpoint drive (secretF : Z) (fuel : nat) (state : SolverState) : option SolverState :=
  if finished state then Some state
  else
    match fuel with
    | O => None
    | S fuel' => drive secretF fuel' (fst (step secretF state))
    end.

(** ** The hook as a function of its props *)

Record Props : Type := mkProps {
  props_n : Z;
  props_secretF : Z
}.

(** What a component sees after mounting the hook with props [p]:
    the memoised [k] and the state installed by the planning effect. *)
Record Hook : Type := mkHook {
  hook_k : Z;
  hook_state : SolverState
}.

Definition useCrystalBallSolver (p : Props) : Hook :=
  {| hook_k := k (props_n p);
     hook_state := planEffect (props_n p) |}.

(** The invariant of the state record. *)
Definition counts_drops (state : SolverState) : Prop :=
  totalDrops state = len (drops state).

(** ** [Array.prototype.slice] and [includes] *)

(** [a.slice(start, end)]: a negative index counts from the end, and both
    indices are clamped to [0 .. a.length]. *)
Definition slice (a : list Z) (start end_ : Z) : list Z :=
  let relStart := if start <? 0 then Z.max (len a + start) 0 else Z.min start (len a) in
  let relEnd := if end_ <? 0 then Z.max (len a + end_) 0 else Z.min end_ (len a) in
  firstn (Z.to_nat (relEnd - relStart)) (skipn (Z.to_nat relStart) a).

(** [a.slice(start)] *)
Definition sliceFrom (a : list Z) (start : Z) : list Z := slice a start (len a).

(** [a.includes(x)] *)
Definition includes (a : list Z) (x : Z) : bool := existsb (Z.eqb x) a.

(** ** The [step] of the single-file version of the app

    The first version of the hook, kept in the single-file [App.tsx], has its
    own [step].  It returns early on an empty sequence and counts the linear
    probes already made with [state.drops.slice(brokeIndex + 1).length]. *)

Section HookApp.

Variable secretF : Z.

(** The block "If no past break, continue first-phase drop". *)
Definition stepApp_phase1 (state : SolverState) : option (SolverState * StepResult) :=
  let pastBreakIndex := findIndex (testBreaks secretF) (drops state) in
  if pastBreakIndex =? -1 then
    let firstPhaseIndex := len (drops state) in
    if firstPhaseIndex <? len (sequence state) then
      match get (sequence state) firstPhaseIndex with
      | Some floorToTest =>
          let broke := testBreaks secretF floorToTest in
          let newDrops := drops state ++ [floorToTest] in
          let newTotal := totalDrops state + 1 in
          if broke then
            Some ({| sequence := sequence state; drops := newDrops;
                     foundFloor := foundFloor state; totalDrops := newTotal;
                     finished := finished state |},
                  {| action := "break"; floorTested := Some floorToTest;
                     broke := Some true |})
          else
            Some ({| sequence := sequence state; drops := newDrops;
                     foundFloor := foundFloor state; totalDrops := newTotal;
                     finished := finished state |},
                  {| action := "safe"; floorTested := Some floorToTest;
                     broke := Some false |})
      | None => None
      end
    else None
  else None.

(** The block "a break occurred in an earlier drop and now we must
    linear-scan".  Unlike the phase 1 block it always returns once
    [brokeIndex !== -1]: its [else] branch sets [finished]. *)
Definition stepApp_phase2 (state : SolverState) : option (SolverState * StepResult) :=
  let brokeIndex := findIndex (testBreaks secretF) (drops state) in
  if negb (brokeIndex =? -1) then
    let finish :=
      ({| sequence := sequence state; drops := drops state;
          foundFloor := foundFloor state; totalDrops := totalDrops state;
          finished := true |}, finishedResult) in
    match get (drops state) brokeIndex,
          (if brokeIndex =? 0 then Some (-1) else get (drops state) (brokeIndex - 1)) with
    | Some breakFloor, Some prevSafeFloor =>
        let start := prevSafeFloor + 1 in
        let testedLinear := sliceFrom (drops state) (brokeIndex + 1) in
        let nextLinear := start + len testedLinear in
        if nextLinear <=? breakFloor then
          let broke := testBreaks secretF nextLinear in
          let newDrops := drops state ++ [nextLinear] in
          let newTotal := totalDrops state + 1 in
          if broke then
            Some ({| sequence := sequence state; drops := newDrops;
                     foundFloor := Some nextLinear; totalDrops := newTotal;
                     finished := true |},
                  {| action := "found"; floorTested := Some nextLinear;
                     broke := Some true |})
          else
            Some ({| sequence := sequence state; drops := newDrops;
                     foundFloor := foundFloor state; totalDrops := newTotal;
                     finished := finished state |},
                  {| action := "linear-safe"; floorTested := Some nextLinear;
                     broke := Some false |})
        else Some finish
    | _, _ => Some finish
    end
  else None.

Definition stepApp (state : SolverState) : SolverState * StepResult :=
  let finish :=
    ({| sequence := sequence state; drops := drops state;
        foundFloor := foundFloor state; totalDrops := totalDrops state;
        finished := true |}, finishedResult) in
  if finished state then (state, finishedResult)
  else if len (sequence state) =? 0 then finish
  else
    match stepApp_phase1 state with
    | Some r => r
    | None =>
        match stepApp_phase2 state with
        | Some r => r
        | None => finish
        end
    end.

End HookApp.

(** ** The view computations of [App.tsx] *)

(** [Array.from({ length: Math.max(0, n) }, (_, i) => i)] *)
Definition floors (n : Z) : list Z :=
  map Z.of_nat (List.seq 0 (Z.to_nat (Z.max 0 n))).

(** [solver.state.drops.slice(0, stepIndex)] *)
Definition visibleDrops (state : SolverState) (stepIndex : Z) : list Z :=
  slice (drops state) 0 stepIndex.

(** The props the building passes to one [Floor], without [floorHeight],
    a layout value computed from the window size. *)
Record FloorProps : Type := mkFloorProps {
  floor : Z;
  tested : bool;
  floorBroke : bool;
  isCurrentTest : bool
}.

(** The body of the [map] callback that renders one floor. *)
Definition floorProps (secretF : Z) (state : SolverState) (stepIndex : Z) (floor : Z)
  : FloorProps :=
  let visible := visibleDrops state stepIndex in
  {| floor := floor;
     tested := includes visible floor;
     floorBroke := andb (includes visible floor) (floor >=? secretF);
     isCurrentTest :=
       andb (match get (drops state) (len visible - 1) with
             | Some d => d =? floor
             | None => false
             end)
            (negb (finished state)) |}.

(** [floors.slice().reverse().map(...)]: the building, top floor first. *)
Definition building (n secretF : Z) (state : SolverState) (stepIndex : Z)
  : list FloorProps :=
  map (floorProps secretF state stepIndex) (rev (floors n)).

(** [prevStep]: [setStepIndex((s) => Math.max(0, s - 1))] *)
Definition prevStep (stepIndex : Z) : Z := Z.max 0 (stepIndex - 1).

(** ** Descriptions used in the proofs *)

(** What the [while] loop of the planning effect pushes when it is entered
    with [step] and [current]: one rule per outcome of the loop test. *)
Inductive ladder (n : Z) : Z -> Z -> list Z -> Prop :=
| ladder_exit step current :
    ~ (current < n /\ step > 0) ->
    ladder n step current []
| ladder_push step current rest :
    current < n -> step > 0 ->
    ladder n (step - 1) (current + (step - 1)) rest ->
    ladder n step current (current :: rest).

(** The state [runAll] would install from its locals. *)
Definition installed (seq : list Z) (sim : Sim) : SolverState :=
  {| sequence := seq; drops := simDrops sim; foundFloor := found sim;
     totalDrops := total sim; finished := true |}.

(** * Properties *)

(** ** Concrete runs *)

Example k_10 : k 10 = 4.
Proof. reflexivity. Qed.

Example seq_10 : sequence (planEffect 10) = [4; 7; 9].
Proof. reflexivity. Qed.

Example seq_5 : sequence (planEffect 5) = [3].
Proof. reflexivity. Qed.

Example seq_1 : k 1 = 1 /\ sequence (planEffect 1) = [0].
Proof. split; reflexivity. Qed.

Example seq_2 : k 2 = 2 /\ sequence (planEffect 2) = [1].
Proof. split; reflexivity. Qed.

Example drive_10_7 :
  drive 7 10 (planEffect 10) =
  Some {| sequence := [4; 7; 9]; drops := [4; 7; 5; 6; 7]; foundFloor := Some 7;
          totalDrops := 5; finished := true |}.
Proof. reflexivity. Qed.

Example run_10_9 :
  fst (runAll 10 9 (planEffect 10)) =
  {| sequence := [4; 7; 9]; drops := [4; 7; 9; 8; 9]; foundFloor := Some 9;
     totalDrops := 5; finished := true |}.
Proof. reflexivity. Qed.

Example run_10_7 :
  fst (runAll 10 7 (planEffect 10)) =
  {| sequence := [4; 7; 9]; drops := [4; 7; 5; 6; 7]; foundFloor := Some 7;
     totalDrops := 5; finished := true |}.
Proof. reflexivity. Qed.

(** ** Arrays *)

Lemma len_nonneg (a : list Z) : 0 <= len a.
Proof. unfold len. lia. Qed.

Lemma len_app (a b : list Z) : len (a ++ b) = len a + len b.
Proof. unfold len. rewrite length_app. lia. Qed.

Lemma len_cons (x : Z) (a : list Z) : len (x :: a) = 1 + len a.
Proof. unfold len. cbn [List.length]. lia. Qed.

Lemma len_push (a : list Z) (x : Z) : len (push a x) = len a + 1.
Proof. unfold push. rewrite len_app. reflexivity. Qed.

Lemma get_cons_succ (x : Z) (a : list Z) (i : Z) :
  0 <= i -> get (x :: a) (i + 1) = get a i.
Proof.
  intros Hi. unfold get.
  destruct (Z.ltb_spec (i + 1) 0); [lia |].
  destruct (Z.ltb_spec i 0); [lia |].
  replace (Z.to_nat (i + 1)) with (S (Z.to_nat i)) by lia.
  reflexivity.
Qed.

Lemma get_in_range (a : list Z) (i : Z) :
  0 <= i < len a -> exists x, get a i = Some x.
Proof.
  intros [H0 H1]. unfold get, len in *.
  destruct (Z.ltb_spec i 0); [lia |].
  destruct (nth_error a (Z.to_nat i)) eqn:E; [eauto |].
  apply nth_error_None in E. lia.
Qed.

Lemma get_Some_range (a : list Z) (i x : Z) :
  get a i = Some x -> 0 <= i < len a.
Proof.
  unfold get, len. destruct (Z.ltb_spec i 0); [discriminate |].
  intros E. assert (nth_error a (Z.to_nat i) <> None) as Hn by congruence.
  apply nth_error_Some in Hn. lia.
Qed.

Lemma get_app_l (a b : list Z) (i x : Z) :
  get a i = Some x -> get (a ++ b) i = Some x.
Proof.
  intros E. pose proof (get_Some_range _ _ _ E) as Hr.
  unfold get, len in *. destruct (Z.ltb_spec i 0); [lia |].
  rewrite nth_error_app1 by lia. exact E.
Qed.

Lemma get_last (a : list Z) (x : Z) : get (a ++ [x]) (len (a ++ [x]) - 1) = Some x.
Proof.
  rewrite len_app. unfold get, len. cbn [List.length].
  destruct (Z.ltb_spec (Z.of_nat (List.length a) + Z.of_nat 1 - 1) 0); [lia |].
  rewrite nth_error_app2 by lia.
  replace (Z.to_nat (Z.of_nat (List.length a) + Z.of_nat 1 - 1) - List.length a)%nat
    with 0%nat by lia.
  reflexivity.
Qed.

(** ** The planner's [k] *)

Lemma tri_nonneg (j : Z) : 0 <= j * (j + 1) / 2.
Proof. apply Z.div_pos; nia. Qed.

Lemma tri_succ (j : Z) : (j + 1) * (j + 1 + 1) / 2 = j * (j + 1) / 2 + (j + 1).
Proof.
  replace ((j + 1) * (j + 1 + 1)) with (j * (j + 1) + (j + 1) * 2) by ring.
  apply Z.div_add. lia.
Qed.

Lemma tri_mono (i j : Z) : 0 <= i <= j -> i * (i + 1) / 2 <= j * (j + 1) / 2.
Proof.
  intros H. apply Z.div_le_mono; nia.
Qed.

Lemma k_loop_spec (n kLocal : Z) :
  0 <= kLocal ->
  (forall j, 0 <= j < kLocal -> j * (j + 1) / 2 < n) ->
  kLocal <= k_loop n kLocal /\
  n <= k_loop n kLocal * (k_loop n kLocal + 1) / 2 /\
  (forall j, 0 <= j < k_loop n kLocal -> j * (j + 1) / 2 < n).
Proof.
  funelim (k_loop n kLocal); intros Hk Hbelow.
  - destruct H as (Hle & Hge & Hmin).
    + lia.
    + intros j Hj. destruct (Z.eq_dec j kLocal) as [-> | Hne]; [assumption |].
      apply Hbelow. lia.
    + repeat split; [lia | assumption | assumption].
  - repeat split; [lia | lia | assumption].
Qed.

Lemma k_spec (n : Z) :
  0 <= k n /\ n <= k n * (k n + 1) / 2 /\
  (forall j, 0 <= j < k n -> j * (j + 1) / 2 < n).
Proof.
  unfold k. apply k_loop_spec; [lia | intros j Hj; lia].
Qed.

Lemma k_pos (n : Z) : 0 < n -> 0 < k n.
Proof.
  intros Hn. destruct (k_spec n) as (H0 & Hge & _).
  destruct (Z.eq_dec (k n) 0) as [E | E]; [| lia].
  rewrite E in Hge. cbn in Hge. lia.
Qed.

(** For [n >= 3] at least one full step fits below the top floor. *)
Lemma k_lt_n (n : Z) : 3 <= n -> k n < n.
Proof.
  intros Hn. destruct (k_spec n) as (H0 & _ & Hmin).
  destruct (Z_lt_dec (k n) n) as [| Hge]; [assumption | exfalso].
  assert (0 <= n - 1 < k n) as Hj by lia.
  specialize (Hmin (n - 1) Hj).
  replace (n - 1 + 1) with n in Hmin by ring.
  assert (n <= (n - 1) * n / 2); [| lia].
  apply Z.div_le_lower_bound; nia.
Qed.

(** ** The planner's sequence *)

Lemma seq_loop_ladder (n : Z) (seq : list Z) (step current : Z) :
  exists rest, seq_loop n seq step current = seq ++ rest /\ ladder n step current rest.
Proof.
  funelim (seq_loop n seq step current);
    try (exists []; split; [symmetry; apply app_nil_r | constructor; lia]).
  match goal with IH : exists _, _ |- _ => destruct IH as (rest & E & L) end.
  exists (current :: rest). split.
  - rewrite E. unfold push. rewrite <- app_assoc. reflexivity.
  - constructor; assumption.
Qed.

Lemma ladder_head (n step current x : Z) (rest : list Z) :
  ladder n step current (x :: rest) -> x = current /\ current < n /\ step > 0.
Proof.
  intros L. inversion L; subst. auto.
Qed.

Lemma ladder_bounds (n step current : Z) (l : list Z) :
  ladder n step current l ->
  forall i x, get l i = Some x -> current <= x < n.
Proof.
  induction 1 as [step current Hexit | step current rest Hlt Hpos L IH];
    intros i x E.
  - unfold get in E. destruct (i <? 0); [discriminate |].
    destruct (Z.to_nat i); discriminate.
  - pose proof (get_Some_range _ _ _ E) as Hr.
    destruct (Z.eq_dec i 0) as [-> | Hi].
    + cbn in E. injection E as <-. lia.
    + replace i with (i - 1 + 1) in E by ring.
      rewrite get_cons_succ in E by lia.
      specialize (IH _ _ E). lia.
Qed.

Lemma ladder_gap (n step current : Z) (l : list Z) :
  ladder n step current l ->
  forall i x y, get l i = Some x -> get l (i + 1) = Some y ->
                x < y /\ y - x = step - 1 - i.
Proof.
  induction 1 as [step current Hexit | step current rest Hlt Hpos L IH];
    intros i x y Ex Ey.
  - unfold get in Ex. destruct (i <? 0); [discriminate |].
    destruct (Z.to_nat i); discriminate.
  - pose proof (get_Some_range _ _ _ Ex) as Hr.
    rewrite get_cons_succ in Ey by lia.
    destruct (Z.eq_dec i 0) as [-> | Hi].
    + cbn in Ex. injection Ex as <-.
      destruct rest as [| z rest]; [discriminate |].
      cbn in Ey. injection Ey as <-.
      apply ladder_head in L. lia.
    + replace i with (i - 1 + 1) in Ex by ring.
      rewrite get_cons_succ in Ex by lia.
      replace i with (i - 1 + 1) in Ey by ring.
      specialize (IH _ _ _ Ex Ey). lia.
Qed.

(** The loop leaves only once [current] has reached [n], provided the steps
    still to come can reach it: [current + step * (step - 1) / 2 >= n]. *)
Lemma ladder_cover (n step current : Z) (l : list Z) :
  ladder n step current l ->
  0 <= step -> 2 * n <= 2 * current + step * (step - 1) ->
  (l = [] /\ n <= current) \/
  (exists x, get l (len l - 1) = Some x /\ n <= x + (step - len l) /\ len l < step).
Proof.
  induction 1 as [step current Hexit | step current rest Hlt Hpos L IH];
    intros Hs Hinv.
  - left. split; [reflexivity |]. nia.
  - right.
    destruct IH as [[-> Hge] | (x & Ex & Hx & Hl)]; [lia | nia | |].
    + exists current. cbn. split; [reflexivity |]. lia.
    + exists x. pose proof (get_Some_range _ _ _ Ex) as Hr.
      change (current :: rest) with ([current] ++ rest).
      rewrite len_app. change (len [current]) with 1.
      replace (1 + len rest - 1) with (len rest - 1 + 1) by ring.
      cbn [app]. rewrite get_cons_succ by lia.
      split; [assumption |]. lia.
Qed.

(** The [while] loop of the planner, for the arguments the effect passes. *)
Lemma planned_ladder (n : Z) :
  exists l, seq_loop n [] (k n) (k n) = l /\ ladder n (k n) (k n) l.
Proof.
  destruct (seq_loop_ladder n [] (k n) (k n)) as (rest & E & L).
  exists rest. split; assumption.
Qed.

Lemma planEffect_pos (n : Z) :
  0 < n ->
  planEffect n =
  {| sequence :=
       if len (seq_loop n [] (k n) (k n)) =? 0
       then [Z.min (k n) (n - 1)] else seq_loop n [] (k n) (k n);
     drops := []; foundFloor := None; totalDrops := 0; finished := false |}.
Proof.
  intros Hn. unfold planEffect.
  destruct (Z.leb_spec n 0); [lia |].
  destruct (Z.gtb_spec n 0); [| lia].
  rewrite andb_true_r.
  destruct (len (seq_loop n [] (k n) (k n)) =? 0) eqn:E; [| reflexivity].
  apply Z.eqb_eq in E. unfold len in E.
  destruct (seq_loop n [] (k n) (k n)); [reflexivity | cbn in E; lia].
Qed.

(** The planned sequence is either the loop's output, when the loop pushed
    something ([k < n]), or the single clamped entry ([k >= n]). *)
Lemma planned_cases (n : Z) :
  0 < n ->
  (k n < n /\ sequence (planEffect n) <> [] /\
   ladder n (k n) (k n) (sequence (planEffect n))) \/
  (n <= k n /\ sequence (planEffect n) = [Z.min (k n) (n - 1)]).
Proof.
  intros Hn. rewrite planEffect_pos by assumption. cbn [sequence].
  destruct (planned_ladder n) as (l & -> & L).
  pose proof (k_pos n Hn) as Hk.
  inversion L as [s c Hexit | s c rest Hlt Hpos L']; subst.
  - right. split; [lia | reflexivity].
  - left. split; [assumption |]. split; [discriminate | assumption].
Qed.

Lemma planned_nonempty (n : Z) : 0 < n -> sequence (planEffect n) <> [].
Proof.
  intros Hn. destruct (planned_cases n Hn) as [(_ & Hne & _) | (_ & ->)];
    [assumption | discriminate].
Qed.

Lemma planned_floors (n : Z) :
  0 < n -> forall i x, get (sequence (planEffect n)) i = Some x -> 0 <= x <= n - 1.
Proof.
  intros Hn i x E. pose proof (k_pos n Hn) as Hk.
  destruct (planned_cases n Hn) as [(_ & _ & L) | (Hge & Hs)].
  - pose proof (ladder_bounds _ _ _ _ L _ _ E). lia.
  - rewrite Hs in E. pose proof (get_Some_range _ _ _ E) as Hr.
    change (len [Z.min (k n) (n - 1)]) with 1 in Hr.
    assert (i = 0) as -> by lia. cbn in E. injection E as <-. lia.
Qed.

(** Above the last planned floor fewer floors remain than the next step
    would have skipped. *)
Lemma planned_coverage (n : Z) :
  0 < n -> k n < n ->
  exists x, get (sequence (planEffect n)) (len (sequence (planEffect n)) - 1) = Some x /\
            n <= x + (k n - len (sequence (planEffect n))) /\
            len (sequence (planEffect n)) < k n.
Proof.
  intros Hn Hlt. pose proof (k_pos n Hn) as Hk.
  destruct (planned_cases n Hn) as [(_ & Hne & L) | (Hge & _)]; [| lia].
  destruct (k_spec n) as (_ & Hge & _).
  assert (2 * n <= k n * (k n + 1)) as H2.
  { pose proof (Z.mul_div_le (k n * (k n + 1)) 2 ltac:(lia)). lia. }
  destruct (ladder_cover _ _ _ _ L) as [[E _] | H]; [lia | nia | contradiction | exact H].
Qed.

(** ** The linear scans of [runAll] *)

Lemma testBreaks_true (secretF floor : Z) :
  testBreaks secretF floor = true <-> secretF <= floor.
Proof. unfold testBreaks. rewrite Z.geb_le. reflexivity. Qed.

Lemma testBreaks_false (secretF floor : Z) :
  testBreaks secretF floor = false <-> floor < secretF.
Proof.
  unfold testBreaks. rewrite Z.geb_leb, Z.leb_gt. reflexivity.
Qed.

Lemma probe_inv (secretF : Z) (sim sim' : Sim) (lin : Z) (b : bool) :
  probe secretF sim lin = (sim', b) ->
  simDrops sim' = simDrops sim ++ [lin] /\
  total sim' = total sim + 1 /\
  testBreaks secretF lin = b /\
  found sim' = (if b then Some lin else found sim).
Proof.
  unfold probe, push. destruct (testBreaks secretF lin); intros E;
    injection E as <- <-; cbn; auto.
Qed.

Lemma scan_le_count (secretF f : Z) (sim : Sim) (lin : Z) :
  total (scan_le secretF f sim lin) - len (simDrops (scan_le secretF f sim lin)) =
  total sim - len (simDrops sim).
Proof.
  funelim (scan_le secretF f sim lin); try reflexivity;
    match goal with
    | E : probe _ _ _ = _ |- _ => destruct (probe_inv _ _ _ _ _ E) as (Hd & Ht & _ & _)
    end.
  - rewrite Hd, Ht, len_app. change (len [lin]) with 1. lia.
  - match goal with IH : _ - _ = _ - _ |- _ => rewrite IH end.
    rewrite Hd, Ht, len_app. change (len [lin]) with 1. lia.
Qed.

Lemma scan_lt_count (n secretF : Z) (sim : Sim) (lin : Z) :
  total (scan_lt n secretF sim lin) - len (simDrops (scan_lt n secretF sim lin)) =
  total sim - len (simDrops sim).
Proof.
  funelim (scan_lt n secretF sim lin); try reflexivity;
    match goal with
    | E : probe _ _ _ = _ |- _ => destruct (probe_inv _ _ _ _ _ E) as (Hd & Ht & _ & _)
    end.
  - rewrite Hd, Ht, len_app. change (len [lin]) with 1. lia.
  - match goal with IH : _ - _ = _ - _ |- _ => rewrite IH end.
    rewrite Hd, Ht, len_app. change (len [lin]) with 1. lia.
Qed.

(** A scan that starts at or below the breaking floor and is allowed to
    reach it stops exactly there, having probed every floor on the way. *)
Lemma scan_le_hit (secretF f : Z) (sim : Sim) (lin : Z) :
  lin <= secretF <= f ->
  found (scan_le secretF f sim lin) = Some secretF /\
  total (scan_le secretF f sim lin) = total sim + (secretF - lin + 1) /\
  exists mid, simDrops (scan_le secretF f sim lin) = simDrops sim ++ mid ++ [secretF] /\
              len mid = secretF - lin /\ Forall (fun x => x < secretF) mid.
Proof.
  funelim (scan_le secretF f sim lin); intros Hr; try lia;
    match goal with
    | E : probe _ _ _ = _ |- _ => destruct (probe_inv _ _ _ _ _ E) as (Hd & Ht & Hb & Hf)
    end.
  - apply testBreaks_true in Hb. assert (lin = secretF) as -> by lia.
    split; [assumption |]. split; [lia |].
    exists []. rewrite Hd. cbn. repeat split; [lia | constructor].
  - apply testBreaks_false in Hb.
    match goal with IH : _ -> _ /\ _ |- _ => destruct IH as (If & It & mid & Id & Il & Ia) end;
      [lia |].
    split; [assumption |]. split; [lia |].
    exists (lin :: mid). rewrite Id, Hd, <- app_assoc. cbn [app].
    split; [reflexivity |]. split.
    + rewrite len_cons. lia.
    + constructor; assumption.
Qed.

Lemma scan_lt_hit (n secretF : Z) (sim : Sim) (lin : Z) :
  lin <= secretF < n ->
  found (scan_lt n secretF sim lin) = Some secretF /\
  total (scan_lt n secretF sim lin) = total sim + (secretF - lin + 1) /\
  exists mid, simDrops (scan_lt n secretF sim lin) = simDrops sim ++ mid ++ [secretF] /\
              len mid = secretF - lin /\ Forall (fun x => x < secretF) mid.
Proof.
  funelim (scan_lt n secretF sim lin); intros Hr; try lia;
    match goal with
    | E : probe _ _ _ = _ |- _ => destruct (probe_inv _ _ _ _ _ E) as (Hd & Ht & Hb & Hf)
    end.
  - apply testBreaks_true in Hb. assert (lin = secretF) as -> by lia.
    split; [assumption |]. split; [lia |].
    exists []. rewrite Hd. cbn. repeat split; [lia | constructor].
  - apply testBreaks_false in Hb.
    match goal with IH : _ -> _ /\ _ |- _ => destruct IH as (If & It & mid & Id & Il & Ia) end;
      [lia |].
    split; [assumption |]. split; [lia |].
    exists (lin :: mid). rewrite Id, Hd, <- app_assoc. cbn [app].
    split; [reflexivity |]. split.
    + rewrite len_cons. lia.
    + constructor; assumption.
Qed.

(** ** The first phase of [runAll] *)

Lemma skipn_get (a : list Z) (i x : Z) :
  get a i = Some x ->
  skipn (Z.to_nat i) a = x :: skipn (Z.to_nat (i + 1)) a.
Proof.
  intros E. pose proof (get_Some_range _ _ _ E) as Hr.
  unfold get in E. destruct (Z.ltb_spec i 0); [lia |].
  replace (Z.to_nat (i + 1)) with (S (Z.to_nat i)) by lia.
  revert E. generalize (Z.to_nat i) as m. clear.
  induction a as [| y a IH]; intros [| m] E; cbn in *; try discriminate.
  - injection E as ->. reflexivity.
  - apply IH. assumption.
Qed.

Lemma Forall_get (P : Z -> Prop) (a : list Z) (i x : Z) :
  Forall P a -> get a i = Some x -> P x.
Proof.
  intros HF E. unfold get in E. destruct (i <? 0); [discriminate |].
  apply nth_error_In in E. rewrite Forall_forall in HF. auto.
Qed.

Lemma first_phase_count (secretF : Z) (seq : list Z) (sim : Sim) (i : Z) :
  total (first_phase secretF seq sim i) - len (simDrops (first_phase secretF seq sim i)) =
  total sim - len (simDrops sim).
Proof.
  funelim (first_phase secretF seq sim i); try reflexivity;
    rewrite ?scan_le_count;
    try match goal with IH : _ - _ = _ - _ |- _ => rewrite IH end;
    cbn [total simDrops]; rewrite len_push; lia.
Qed.

(** Entered at index [i] with every earlier planned floor safe, the first
    phase either ends on the breaking floor itself (some planned floor from
    [i] on breaks and the scan below it finds [secretF]), or probes all the
    remaining planned floors, all of them safe, and finds nothing. *)
Lemma first_phase_outcome (secretF : Z) (seq : list Z) (sim : Sim) (i : Z) :
  0 <= secretF -> 0 <= i ->
  (i = 0 \/ exists p, get seq (i - 1) = Some p /\ p < secretF) ->
  (found (first_phase secretF seq sim i) = Some secretF /\
   exists l, simDrops (first_phase secretF seq sim i) = l ++ [secretF]) \/
  (found (first_phase secretF seq sim i) = found sim /\
   simDrops (first_phase secretF seq sim i) = simDrops sim ++ skipn (Z.to_nat i) seq /\
   Forall (fun x => x < secretF) (skipn (Z.to_nat i) seq)).
Proof.
  funelim (first_phase secretF seq sim i); intros Hf Hi Hprev.
  - right. rewrite skipn_all2 by (unfold len in *; lia).
    rewrite app_nil_r. auto.
  - exfalso. destruct (get_in_range sequence0 i) as (x & E); [lia | congruence].
  - match goal with E : testBreaks _ _ = false |- _ => apply testBreaks_false in E end.
    match goal with
    | IH : _ -> _ -> _ -> _ \/ _ |- _ =>
        destruct IH as [Hleft | (IHf & IHd & IHa)]; [assumption | lia | | |]
    end.
    + right. exists f. replace (i + 1 - 1) with i by ring. auto.
    + left. exact Hleft.
    + right. cbn [found simDrops] in IHf, IHd.
      match goal with E : get _ _ = Some f |- _ => rewrite (skipn_get _ _ _ E) end.
      split; [assumption |]. split.
      * rewrite IHd. unfold push. rewrite <- app_assoc. reflexivity.
      * constructor; assumption.
  - left.
    match goal with E : testBreaks _ _ = true |- _ => apply testBreaks_true in E end.
    assert (prevSafe + 1 <= secretF) as Hlo.
    { destruct (Z.eqb_spec i 0) as [-> | Hne].
      - match goal with E : Some _ = Some prevSafe |- _ => injection E as <- end. lia.
      - destruct Hprev as [-> | (p & Ep & Hp)]; [contradiction |].
        match goal with E : get _ _ = Some prevSafe |- _ => rewrite Ep in E; injection E as <- end.
        lia. }
    match goal with
    | |- context [scan_le secretF f ?s ?lo] =>
        destruct (scan_le_hit secretF f s lo) as (Sf & _ & mid & Sd & _ & _); [lia |]
    end.
    split; [assumption |].
    rewrite Sd. cbn [simDrops]. eexists. rewrite app_assoc. reflexivity.
  - exfalso. destruct (Z.eqb_spec i 0) as [-> | Hne]; [discriminate |].
    destruct Hprev as [-> | (p & Ep & Hp)]; [contradiction | congruence].
Qed.

(** [runAll] finds the breaking floor and records it as its last drop,
    whatever sequence the state holds. *)
Lemma runAll_finds (n secretF : Z) (state : SolverState) :
  0 <= secretF < n ->
  foundFloor (fst (runAll n secretF state)) = Some secretF /\
  exists l, drops (fst (runAll n secretF state)) = l ++ [secretF].
Proof.
  intros Hr. unfold runAll. cbn [fst foundFloor drops].
  set (sim0 := {| simDrops := []; found := None; total := 0 |}).
  destruct (first_phase_outcome secretF (sequence state) sim0 0)
    as [(Ff & l & Fd) | (Ff & Fd & Fa)]; [lia | lia | auto | |].
  - unfold fallback. rewrite Ff. rewrite Ff. split; [reflexivity |]. eauto.
  - cbn [found simDrops sim0 app Z.to_nat skipn] in Ff, Fd, Fa.
    assert (exists lo, fallback n secretF (first_phase secretF (sequence state) sim0 0) =
                       scan_lt n secretF (first_phase secretF (sequence state) sim0 0) lo /\
                       lo <= secretF) as (lo & -> & Hlo).
    { unfold fallback. rewrite Ff, Fd.
      destruct (Z.eqb_spec (len (sequence state)) 0) as [E | E]; cbn [negb].
      - exists (-1 + 1). split; [reflexivity | lia].
      - pose proof (len_nonneg (sequence state)).
        destruct (get_in_range (sequence state) (len (sequence state) - 1)) as (x & Ex);
          [lia |].
        rewrite Ex. exists (x + 1). split; [reflexivity |].
        pose proof (Forall_get _ _ _ _ Fa Ex) as Hx. cbn in Hx. lia. }
    match goal with
    | |- context [scan_lt n secretF ?s lo] =>
        destruct (scan_lt_hit n secretF s lo) as (Sf & _ & mid & Sd & _ & _); [lia |]
    end.
    rewrite Sf. split; [reflexivity |].
    rewrite Sd. eexists. rewrite app_assoc. reflexivity.
Qed.

(** ** [findIndex] *)

Lemma findIndexFrom_range (p : Z -> bool) (a : list Z) (i : Z) :
  findIndexFrom p a i = -1 \/ i <= findIndexFrom p a i < i + len a.
Proof.
  revert i. induction a as [| d a IH]; intros i; cbn [findIndexFrom].
  - left. reflexivity.
  - rewrite len_cons. pose proof (len_nonneg a).
    destruct (p d); [right; lia |].
    destruct (IH (i + 1)) as [E | E]; [left; assumption | right; lia].
Qed.

Lemma findIndexFrom_app (p : Z -> bool) (a b : list Z) (i : Z) :
  0 <= i -> findIndexFrom p a i <> -1 ->
  findIndexFrom p (a ++ b) i = findIndexFrom p a i.
Proof.
  revert i. induction a as [| d a IH]; intros i Hi Hne; cbn [findIndexFrom app] in *.
  - contradiction.
  - destruct (p d); [reflexivity |]. apply IH; [lia | assumption].
Qed.

Lemma findIndex_app (p : Z -> bool) (a b : list Z) :
  findIndex p a <> -1 -> findIndex p (a ++ b) = findIndex p a.
Proof. apply findIndexFrom_app. lia. Qed.

Lemma findIndexFrom_none (p : Z -> bool) (a : list Z) (i : Z) :
  0 <= i -> (findIndexFrom p a i = -1 <-> Forall (fun d => p d = false) a).
Proof.
  revert i. induction a as [| d a IH]; intros i Hi; cbn [findIndexFrom].
  - split; [constructor | reflexivity].
  - destruct (p d) eqn:E.
    + split; [lia |]. intros HF. inversion HF; congruence.
    + rewrite IH by lia. split.
      * intros HF. constructor; assumption.
      * intros HF. inversion HF; assumption.
Qed.

Lemma findIndex_none (p : Z -> bool) (a : list Z) :
  findIndex p a = -1 <-> Forall (fun d => p d = false) a.
Proof. apply findIndexFrom_none. lia. Qed.

(** ** One call of [step] *)

(** A call of [step] leaves the sequence alone and either leaves the drops
    alone or appends one floor and counts it. *)
Lemma step_effect (secretF : Z) (s : SolverState) :
  sequence (fst (step secretF s)) = sequence s /\
  ((drops (fst (step secretF s)) = drops s /\
    totalDrops (fst (step secretF s)) = totalDrops s) \/
   (exists x, drops (fst (step secretF s)) = drops s ++ [x] /\
              totalDrops (fst (step secretF s)) = totalDrops s + 1)).
Proof.
  unfold step. destruct (finished s); [cbn; auto |].
  destruct (step_phase1 secretF s) as [r |] eqn:E1.
  - unfold step_phase1 in E1.
    destruct (findIndex (testBreaks secretF) (drops s) =? -1); [| discriminate].
    destruct (len (drops s) <? len (sequence s)); [| discriminate].
    destruct (get (sequence s) (len (drops s))) as [x |]; [| discriminate].
    injection E1 as <-. cbn. eauto.
  - destruct (step_phase2 secretF s) as [r |] eqn:E2; [| cbn; auto].
    unfold step_phase2 in E2.
    destruct (negb (findIndex (testBreaks secretF) (drops s) =? -1)); [| discriminate].
    destruct (get (drops s) (findIndex (testBreaks secretF) (drops s)));
      [| discriminate].
    destruct (if findIndex (testBreaks secretF) (drops s) =? 0
              then Some (-1)
              else get (drops s) (findIndex (testBreaks secretF) (drops s) - 1))
      as [prevSafe |]; [| discriminate].
    match type of E2 with
    | (if ?c then _ else _) = _ => destruct c; [| discriminate]
    end.
    match type of E2 with
    | (if ?c then _ else _) = _ => destruct c
    end; injection E2 as <-; cbn; eauto.
Qed.

(** Once a recorded drop breaks, a call of [step] appends nothing above the
    first breaking drop. *)
Lemma step_after_break (secretF : Z) (s : SolverState) (b : Z) :
  findIndex (testBreaks secretF) (drops s) <> -1 ->
  get (drops s) (findIndex (testBreaks secretF) (drops s)) = Some b ->
  drops (fst (step secretF s)) = drops s \/
  exists x, drops (fst (step secretF s)) = drops s ++ [x] /\ x <= b.
Proof.
  intros Hne Hb. unfold step. destruct (finished s); [cbn; auto |].
  assert (step_phase1 secretF s = None) as ->.
  { unfold step_phase1.
    destruct (Z.eqb_spec (findIndex (testBreaks secretF) (drops s)) (-1));
      [contradiction | reflexivity]. }
  destruct (step_phase2 secretF s) as [r |] eqn:E2; [| cbn; auto].
  unfold step_phase2 in E2. rewrite Hb in E2.
  destruct (negb (findIndex (testBreaks secretF) (drops s) =? -1)); [| discriminate].
  destruct (if findIndex (testBreaks secretF) (drops s) =? 0
            then Some (-1)
            else get (drops s) (findIndex (testBreaks secretF) (drops s) - 1))
    as [prevSafe |]; [| discriminate].
  match type of E2 with
  | (if ?x <=? b then _ else _) = _ =>
      destruct (Z.leb_spec x b) as [Hle | Hgt]; [| discriminate]
  end.
  match type of E2 with
  | (if ?c then _ else _) = _ => destruct c
  end; injection E2 as <-; cbn; eauto.
Qed.

Lemma steps_after_break (secretF : Z) (m : nat) :
  forall (s : SolverState) (b : Z),
    findIndex (testBreaks secretF) (drops s) <> -1 ->
    get (drops s) (findIndex (testBreaks secretF) (drops s)) = Some b ->
    exists ext, drops (steps secretF m s) = drops s ++ ext /\
                Forall (fun x => x <= b) ext.
Proof.
  induction m as [| m IH]; intros s b Hne Hb; cbn [steps].
  - exists []. rewrite app_nil_r. auto.
  - destruct (step_after_break secretF s b Hne Hb) as [E | (x & E & Hx)].
    + destruct (IH (fst (step secretF s)) b) as (ext & Ed & Ha).
      * rewrite E. assumption.
      * rewrite E. assumption.
      * exists ext. rewrite Ed, E. auto.
    + destruct (IH (fst (step secretF s)) b) as (ext & Ed & Ha).
      * rewrite E, findIndex_app; assumption.
      * rewrite E, findIndex_app by assumption. apply get_app_l. assumption.
      * exists (x :: ext). rewrite Ed, E, <- app_assoc. auto.
Qed.

(** ** Stepping simulates the loops of [runAll] *)

Lemma drive_step (secretF : Z) (fuel : nat) (s : SolverState) :
  finished s = false ->
  drive secretF (S fuel) s = drive secretF fuel (fst (step secretF s)).
Proof. intros H. cbn [drive]. rewrite H. reflexivity. Qed.

Lemma drive_finished (secretF : Z) (fuel : nat) (s : SolverState) :
  finished s = true -> drive secretF fuel s = Some s.
Proof. intros H. destruct fuel; cbn [drive]; rewrite H; reflexivity. Qed.

(** What [step] does in phase 2. *)
Lemma step_in_phase2 (secretF : Z) (s : SolverState) (j f p : Z) :
  finished s = false ->
  findIndex (testBreaks secretF) (drops s) = j -> j <> -1 ->
  get (drops s) j = Some f ->
  (if j =? 0 then Some (-1) else get (drops s) (j - 1)) = Some p ->
  fst (step secretF s) =
    let nextLinear := p + 1 + (len (drops s) - (j + 1)) in
    if nextLinear <=? f then
      if testBreaks secretF nextLinear then
        {| sequence := sequence s; drops := drops s ++ [nextLinear];
           foundFloor := Some nextLinear; totalDrops := totalDrops s + 1;
           finished := true |}
      else
        {| sequence := sequence s; drops := drops s ++ [nextLinear];
           foundFloor := foundFloor s; totalDrops := totalDrops s + 1;
           finished := false |}
    else
      {| sequence := sequence s; drops := drops s; foundFloor := foundFloor s;
         totalDrops := totalDrops s; finished := true |}.
Proof.
  intros Hfin Hj Hne Hf Hp. unfold step. rewrite Hfin.
  assert (step_phase1 secretF s = None) as ->.
  { unfold step_phase1. rewrite Hj.
    destruct (Z.eqb_spec j (-1)); [contradiction | reflexivity]. }
  unfold step_phase2. rewrite Hj, Hf, Hp, Hfin.
  destruct (Z.eqb_spec j (-1)); [contradiction |]. cbn [negb].
  cbv zeta.
  destruct (p + 1 + (len (drops s) - (j + 1)) <=? f); [| reflexivity].
  destruct (testBreaks secretF (p + 1 + (len (drops s) - (j + 1)))); reflexivity.
Qed.

(** Phase 2 of [step], called repeatedly, performs the inner scan of
    [runAll]. *)
Lemma drive_scan (secretF f : Z) (sim : Sim) (lin : Z) :
  forall (s : SolverState) (j p : Z),
    finished s = false ->
    findIndex (testBreaks secretF) (drops s) = j -> j <> -1 ->
    get (drops s) j = Some f ->
    (if j =? 0 then Some (-1) else get (drops s) (j - 1)) = Some p ->
    lin = p + 1 + (len (drops s) - (j + 1)) ->
    simDrops sim = drops s -> total sim = totalDrops s -> found sim = foundFloor s ->
    exists fuel,
      drive secretF fuel s = Some (installed (sequence s) (scan_le secretF f sim lin)).
Proof.
  funelim (scan_le secretF f sim lin); intros s j p Hfin Hj Hne Hf Hp Hlin Hd Ht Hfo;
    pose proof (step_in_phase2 secretF s j f p Hfin Hj Hne Hf Hp) as Hstep;
    cbv zeta in Hstep; rewrite <- Hlin in Hstep.
  - destruct (Z.leb_spec lin f); [lia |].
    exists 1%nat. rewrite drive_step by assumption. rewrite Hstep.
    cbn [drive finished]. unfold installed. rewrite Hd, Ht, Hfo. reflexivity.
  - match goal with
    | E : probe _ _ _ = _ |- _ => destruct (probe_inv _ _ _ _ _ E) as (Pd & Pt & Pb & Pf)
    end.
    destruct (Z.leb_spec lin f); [| lia]. rewrite Pb in Hstep.
    exists 1%nat. rewrite drive_step by assumption. rewrite Hstep.
    cbn [drive finished]. unfold installed. rewrite Pd, Pt, Pf, Hd, Ht. reflexivity.
  - match goal with
    | E : probe _ _ _ = _ |- _ => destruct (probe_inv _ _ _ _ _ E) as (Pd & Pt & Pb & Pf)
    end.
    destruct (Z.leb_spec lin f); [| lia]. rewrite Pb in Hstep.
    match goal with
    | IH : forall s : SolverState, _ |- _ =>
        destruct (IH (fst (step secretF s)) j p) as (fuel & Hdrive)
    end; rewrite ?Hstep; cbn [finished drops sequence totalDrops foundFloor].
    + reflexivity.
    + rewrite findIndex_app; congruence.
    + assumption.
    + apply get_app_l. assumption.
    + destruct (j =? 0); [assumption | apply get_app_l; assumption].
    + rewrite len_app. change (len [lin]) with 1. lia.
    + rewrite Pd, Hd. reflexivity.
    + rewrite Pt, Ht. reflexivity.
    + rewrite Pf, Hfo. reflexivity.
    + exists (S fuel). rewrite drive_step by assumption.
      rewrite Hdrive, Hstep. reflexivity.
Qed.

Lemma firstn_len (a : list Z) (i : Z) :
  0 <= i -> len (firstn (Z.to_nat i) a) = Z.min i (len a).
Proof.
  intros Hi. unfold len. rewrite length_firstn. lia.
Qed.

Lemma firstn_succ_get (a : list Z) (i x : Z) :
  get a i = Some x ->
  firstn (Z.to_nat (i + 1)) a = firstn (Z.to_nat i) a ++ [x].
Proof.
  intros E. pose proof (get_Some_range _ _ _ E) as Hr.
  unfold get in E. destruct (Z.ltb_spec i 0); [lia |].
  replace (Z.to_nat (i + 1)) with (S (Z.to_nat i)) by lia.
  revert E. generalize (Z.to_nat i) as m. clear.
  induction a as [| y a IH]; intros [| m] E; cbn in *; try discriminate.
  - injection E as ->. reflexivity.
  - rewrite (IH m E). reflexivity.
Qed.

Lemma get_firstn (a : list Z) (m q : Z) :
  0 <= q < m -> get (firstn (Z.to_nat m) a) q = get a q.
Proof.
  intros Hq. unfold get. destruct (Z.ltb_spec q 0); [lia |].
  rewrite nth_error_firstn.
  destruct (Nat.ltb_spec (Z.to_nat q) (Z.to_nat m)); [reflexivity | lia].
Qed.

Lemma findIndexFrom_first_break (p : Z -> bool) (a : list Z) (x i : Z) :
  Forall (fun d => p d = false) a -> p x = true ->
  findIndexFrom p (a ++ [x]) i = i + len a.
Proof.
  intros HF Hx. revert i.
  induction HF as [| d a Hd HF IH]; intros i; cbn [app findIndexFrom].
  - rewrite Hx. change (len []) with 0. lia.
  - rewrite Hd, IH, len_cons. lia.
Qed.

Lemma all_safe (secretF : Z) (a : list Z) :
  Forall (fun x => x < secretF) a ->
  Forall (fun d => testBreaks secretF d = false) a.
Proof.
  apply Forall_impl. intros x Hx. apply testBreaks_false. assumption.
Qed.

(** What [step] does in phase 1 while planned floors remain. *)
Lemma step_in_phase1 (secretF : Z) (s : SolverState) (x : Z) :
  finished s = false ->
  findIndex (testBreaks secretF) (drops s) = -1 ->
  len (drops s) < len (sequence s) ->
  get (sequence s) (len (drops s)) = Some x ->
  fst (step secretF s) =
    {| sequence := sequence s; drops := drops s ++ [x];
       foundFloor := foundFloor s; totalDrops := totalDrops s + 1;
       finished := false |}.
Proof.
  intros Hfin Hj Hlt Hx. unfold step, step_phase1. rewrite Hfin, Hj, Hx.
  cbn [Z.eqb Pos.eqb].
  destruct (Z.ltb_spec (len (drops s)) (len (sequence s))); [| lia].
  reflexivity.
Qed.

(** What [step] does when no drop has broken and the plan is used up. *)
Lemma step_exhausted (secretF : Z) (s : SolverState) :
  finished s = false ->
  findIndex (testBreaks secretF) (drops s) = -1 ->
  len (sequence s) <= len (drops s) ->
  fst (step secretF s) =
    {| sequence := sequence s; drops := drops s; foundFloor := foundFloor s;
       totalDrops := totalDrops s; finished := true |}.
Proof.
  intros Hfin Hj Hge. unfold step, step_phase1, step_phase2. rewrite Hfin, Hj.
  cbn [Z.eqb Pos.eqb negb].
  destruct (Z.ltb_spec (len (drops s)) (len (sequence s))); [lia |].
  reflexivity.
Qed.

(** Phase 1 of [step], followed by phase 2, performs the first loop of
    [runAll], inner scan included. *)
Lemma drive_first_phase (secretF : Z) (seq : list Z) (sim : Sim) (i : Z) :
  forall s : SolverState,
    sequence s = seq -> finished s = false -> 0 <= i ->
    drops s = firstn (Z.to_nat i) seq ->
    Forall (fun x => x < secretF) (drops s) ->
    simDrops sim = drops s -> total sim = totalDrops s -> found sim = foundFloor s ->
    exists fuel,
      drive secretF fuel s = Some (installed seq (first_phase secretF seq sim i)).
Proof.
  funelim (first_phase secretF seq sim i);
    intros s Hseq Hfin Hi Hdrops Hsafe Hd Ht Hfo; subst sequence0;
    pose proof (proj2 (findIndex_none _ _) (all_safe _ _ Hsafe)) as Hnone;
    pose proof (firstn_len (sequence s) i Hi) as Hlen; rewrite <- Hdrops in Hlen.
  - exists 1%nat. rewrite drive_step by assumption.
    rewrite (step_exhausted secretF s Hfin Hnone) by lia.
    cbn [drive finished]. unfold installed. rewrite Hd, Ht, Hfo. reflexivity.
  - exfalso. destruct (get_in_range (sequence s) i) as (x & E); [lia | congruence].
  - match goal with E : testBreaks _ _ = false |- _ => apply testBreaks_false in E end.
    assert (fst (step secretF s) =
            {| sequence := sequence s; drops := drops s ++ [f];
               foundFloor := foundFloor s; totalDrops := totalDrops s + 1;
               finished := false |}) as Hstep.
    { apply step_in_phase1; try assumption; rewrite Hlen; [lia |].
      replace (Z.min i (len (sequence s))) with i by lia. assumption. }
    match goal with
    | IH : forall s : SolverState, _ |- _ =>
        destruct (IH (fst (step secretF s))) as (fuel & Hdrive)
    end; rewrite ?Hstep; cbn [finished drops sequence totalDrops foundFloor simDrops total found].
    + reflexivity.
    + reflexivity.
    + lia.
    + rewrite Hdrops. symmetry. apply firstn_succ_get. assumption.
    + apply Forall_app. split; [assumption |]. constructor; [assumption | constructor].
    + unfold push. rewrite Hd. reflexivity.
    + rewrite Ht. reflexivity.
    + assumption.
    + exists (S fuel). rewrite drive_step by assumption.
      rewrite Hdrive. reflexivity.
  - assert (fst (step secretF s) =
            {| sequence := sequence s; drops := drops s ++ [f];
               foundFloor := foundFloor s; totalDrops := totalDrops s + 1;
               finished := false |}) as Hstep.
    { apply step_in_phase1; try assumption; rewrite Hlen; [lia |].
      replace (Z.min i (len (sequence s))) with i by lia. assumption. }
    assert (len (drops s) = i) as Hli by lia.
    match goal with
    | |- context [scan_le secretF f ?sim' ?lo] =>
        destruct (drive_scan secretF f sim' lo (fst (step secretF s)) i prevSafe)
          as (fuel & Hdrive)
    end; rewrite ?Hstep; cbn [finished drops sequence totalDrops foundFloor simDrops total found].
    + reflexivity.
    + unfold findIndex. rewrite findIndexFrom_first_break;
        [lia | apply all_safe; assumption | assumption].
    + lia.
    + rewrite <- Hli. replace (len (drops s)) with (len (drops s ++ [f]) - 1)
        by (rewrite len_app; change (len [f]) with 1; lia).
      apply get_last.
    + destruct (Z.eqb_spec i 0); [assumption |].
      apply get_app_l. rewrite Hdrops, get_firstn by lia. assumption.
    + rewrite len_app. change (len [f]) with 1. lia.
    + unfold push. rewrite Hd. reflexivity.
    + rewrite Ht. reflexivity.
    + assumption.
    + exists (S fuel). rewrite drive_step by assumption.
      rewrite Hdrive, Hstep. reflexivity.
  - exfalso. destruct (Z.eqb_spec i 0); [discriminate |].
    destruct (get_in_range (sequence s) (i - 1)) as (x & E); [lia | congruence].
Qed.

(** Stepping a fresh state until it is finished installs what the first loop
    of [runAll] computes: [runAll] without its fallback. *)
Lemma drive_fresh (secretF : Z) (seq : list Z) :
  exists fuel,
    drive secretF fuel
      {| sequence := seq; drops := []; foundFloor := None; totalDrops := 0;
         finished := false |} =
    Some (installed seq
            (first_phase secretF seq {| simDrops := []; found := None; total := 0 |} 0)).
Proof.
  apply drive_first_phase; cbn [drops]; try reflexivity; try lia.
  constructor.
Qed.

Lemma planEffect_fresh (n : Z) :
  0 < n ->
  planEffect n =
  {| sequence := sequence (planEffect n); drops := []; foundFloor := None;
     totalDrops := 0; finished := false |}.
Proof.
  intros Hn. rewrite planEffect_pos by assumption. reflexivity.
Qed.

Lemma runAll_counts (n secretF : Z) (s : SolverState) :
  counts_drops (fst (runAll n secretF s)).
Proof.
  unfold counts_drops, runAll. cbn [fst totalDrops drops].
  set (sim := first_phase secretF (sequence s) _ 0).
  assert (total sim = len (simDrops sim)) as Hsim.
  { pose proof (first_phase_count secretF (sequence s)
                  {| simDrops := []; found := None; total := 0 |} 0) as H.
    fold sim in H. cbn in H. lia. }
  unfold fallback. destruct (found sim); [assumption |].
  destruct (if negb (len (simDrops sim) =? 0)
            then get (simDrops sim) (len (simDrops sim) - 1)
            else Some (-1)) as [lastTested |]; [| assumption].
  pose proof (scan_lt_count n secretF sim (lastTested + 1)). lia.
Qed.

(** Where some planned floor breaks, stepping until finished and [runAll]
    install the same state. *)
Lemma drive_agrees_when_covered (n secretF : Z) :
  0 < n -> 0 <= secretF ->
  (exists i f, get (sequence (planEffect n)) i = Some f /\ secretF <= f) ->
  exists fuel,
    drive secretF fuel (planEffect n) = Some (fst (runAll n secretF (planEffect n))).
Proof.
  intros Hn Hf (i & f & Ei & Hif).
  destruct (drive_fresh secretF (sequence (planEffect n))) as (fuel & Hdrive).
  rewrite <- planEffect_fresh in Hdrive by assumption.
  exists fuel. rewrite Hdrive. f_equal.
  unfold runAll, installed. cbn [fst].
  set (sim0 := {| simDrops := []; found := None; total := 0 |}).
  destruct (first_phase_outcome secretF (sequence (planEffect n)) sim0 0)
    as [(Ff & _) | (_ & _ & Fa)]; [lia | lia | auto | |].
  - unfold fallback. rewrite Ff. rewrite Ff. reflexivity.
  - exfalso. cbn [Z.to_nat skipn] in Fa.
    pose proof (Forall_get _ _ _ _ Fa Ei) as Hlt. cbn in Hlt. lia.
Qed.

Lemma first_phase_all_safe (secretF : Z) (seq : list Z) (sim : Sim) (i : Z) :
  Forall (fun x => x < secretF) seq ->
  found (first_phase secretF seq sim i) = found sim.
Proof.
  funelim (first_phase secretF seq sim i); intros Hsafe; try reflexivity;
    try (exfalso;
         match goal with
         | E : testBreaks _ _ = true, G : get _ _ = Some _ |- _ =>
             apply testBreaks_true in E;
             pose proof (Forall_get _ _ _ _ Hsafe G) as Hlt; cbn in Hlt; lia
         end).
  match goal with IH : _ -> found _ = _ |- _ => rewrite IH by assumption end.
  reflexivity.
Qed.

(** Where every planned floor is safe, stepping finishes without a found
    floor after one drop per planned floor, while [runAll] goes on above the
    plan and finds [secretF] with more drops. *)
Lemma drive_misses_when_uncovered (n secretF : Z) :
  0 < n -> 0 <= secretF < n ->
  Forall (fun x => x < secretF) (sequence (planEffect n)) ->
  exists fuel s',
    drive secretF fuel (planEffect n) = Some s' /\
    foundFloor s' = None /\
    totalDrops s' = len (sequence (planEffect n)) /\
    foundFloor (fst (runAll n secretF (planEffect n))) = Some secretF /\
    totalDrops s' < totalDrops (fst (runAll n secretF (planEffect n))).
Proof.
  intros Hn Hr Hsafe.
  destruct (drive_fresh secretF (sequence (planEffect n))) as (fuel & Hdrive).
  rewrite <- planEffect_fresh in Hdrive by assumption.
  destruct (runAll_finds n secretF (planEffect n) Hr) as (Rf & _).
  pose proof (runAll_counts n secretF (planEffect n)) as Hc.
  unfold counts_drops in Hc. rewrite Hc. clear Hc.
  unfold runAll in Rf |- *. cbn [fst drops foundFloor] in Rf |- *.
  pose proof (first_phase_all_safe secretF (sequence (planEffect n))
                {| simDrops := []; found := None; total := 0 |} 0 Hsafe) as Hnone.
  cbn [found] in Hnone.
  pose proof (first_phase_count secretF (sequence (planEffect n))
                {| simDrops := []; found := None; total := 0 |} 0) as Hft.
  destruct (first_phase_outcome secretF (sequence (planEffect n))
              {| simDrops := []; found := None; total := 0 |} 0)
    as [(Ff & _) | (_ & Hfd & _)]; [lia | lia | auto | congruence |].
  revert Rf Hdrive Hnone Hft Hfd.
  generalize (first_phase secretF (sequence (planEffect n))
                {| simDrops := []; found := None; total := 0 |} 0) as fp.
  intros fp Rf Hdrive Hnone Hft Hfd. cbn in Hnone, Hft, Hfd.
  exists fuel, (installed (sequence (planEffect n)) fp).
  split; [assumption |]. split; [assumption |].
  cbn [installed totalDrops].
  split; [rewrite Hfd in Hft; lia |]. split; [assumption |].
  assert (exists lo, fallback n secretF fp = scan_lt n secretF fp lo /\ lo <= secretF)
    as (lo & -> & Hlo).
  { unfold fallback. rewrite Hnone, Hfd.
    destruct (Z.eqb_spec (len (sequence (planEffect n))) 0) as [E | E]; cbn [negb].
    - exists (-1 + 1). split; [reflexivity | lia].
    - pose proof (len_nonneg (sequence (planEffect n))).
      destruct (get_in_range (sequence (planEffect n))
                  (len (sequence (planEffect n)) - 1)) as (x & Ex); [lia |].
      rewrite Ex. exists (x + 1). split; [reflexivity |].
      pose proof (Forall_get _ _ _ _ Hsafe Ex) as Hx. cbn in Hx. lia. }
  destruct (scan_lt_hit n secretF fp lo) as (_ & _ & mid & Sd & _ & _); [lia |].
  rewrite Sd, !len_app. change (len [secretF]) with 1.
  pose proof (len_nonneg mid). lia.
Qed.

(** * The specification's claims *)

(** C1.  For every [n > 0] and [0 <= secretF < n], [runAll] on the freshly
    planned state sets [foundFloor] to [secretF]. *)
Theorem runAll_finds_secret (n secretF : Z) :
  0 < n -> 0 <= secretF < n ->
  foundFloor (fst (runAll n secretF (planEffect n))) = Some secretF.
Proof.
  intros _ Hr. apply runAll_finds. assumption.
Qed.

Lemma runAll_finds_secret_witness :
  0 < 10 /\ 0 <= 7 < 10 /\
  foundFloor (fst (runAll 10 7 (planEffect 10))) = Some 7.
Proof.
  split; [lia |]. split; [lia |].
  apply (runAll_finds_secret 10 7); lia.
Defined.

(** C2.  The claim is that stepping until [finished] and one [runAll] agree
    on [foundFloor] and [totalDrops] for every valid configuration.  With
    five floors and the secret at the top floor 4, the planned sequence is
    [[3]]: stepping probes floor 3, sees no break, and finishes with no
    floor found after one drop, while [runAll] goes on to floor 4 and finds
    it with two drops. *)
Theorem step_runAll_disagree_5_4 :
  drive 4 10 (planEffect 5) =
    Some {| sequence := [3]; drops := [3]; foundFloor := None;
            totalDrops := 1; finished := true |} /\
  fst (runAll 5 4 (planEffect 5)) =
    {| sequence := [3]; drops := [3; 4]; foundFloor := Some 4;
       totalDrops := 2; finished := true |}.
Proof.
  split; reflexivity.
Qed.

(** C3.  For every [n > 0] the planner's [k] is the smallest non-negative
    integer with [k * (k + 1) / 2 >= n]. *)
Theorem k_smallest_triangular (n : Z) :
  0 < n ->
  0 <= k n /\
  k n * (k n + 1) / 2 >= n /\
  (forall j, 0 <= j < k n -> j * (j + 1) / 2 < n).
Proof.
  intros _. destruct (k_spec n) as (H0 & Hge & Hmin).
  split; [assumption |]. split; [lia | assumption].
Qed.

Lemma k_smallest_triangular_witness :
  0 < 10 /\
  (0 <= k 10 /\ k 10 * (k 10 + 1) / 2 >= 10 /\
   (forall j, 0 <= j < k 10 -> j * (j + 1) / 2 < 10)).
Proof.
  split; [lia |]. apply (k_smallest_triangular 10). lia.
Defined.

(** C4, as worded, requires the last planned floor to be at least [n - 1].
    For five floors the plan is [[3]], whose last floor is below 4. *)
Lemma planned_last_below_top_5 :
  ~ (forall x,
       get (sequence (planEffect 5)) (len (sequence (planEffect 5)) - 1) = Some x ->
       5 - 1 <= x).
Proof.
  intros H. specialize (H 3 eq_refl). lia.
Qed.

(** C4, amended.  For every [n > 0] the planned sequence is non-empty, all
    its floors lie in [0 .. n - 1], it is strictly increasing, and the gap
    between its entries [i] and [i + 1] is [k - 1 - i]; when a full step fits
    ([k < n]) it starts at [k], and when none fits it is the single entry
    [min k (n - 1)].  Its last floor is at most [n - 1] and reaches the top
    up to less than the next step: when [k < n] the sequence has fewer than
    [k] entries and [n - 1 - last < k - length], so the step after the last
    entry would have landed at or above [n]; when no full step fits the last
    floor is [n - 1] itself. *)
Theorem planned_sequence_shape (n : Z) :
  0 < n ->
  sequence (planEffect n) <> [] /\
  (forall i x, get (sequence (planEffect n)) i = Some x -> 0 <= x <= n - 1) /\
  (forall i x y,
     get (sequence (planEffect n)) i = Some x ->
     get (sequence (planEffect n)) (i + 1) = Some y ->
     x < y /\ y - x = k n - 1 - i) /\
  (k n < n -> get (sequence (planEffect n)) 0 = Some (k n)) /\
  (n <= k n -> sequence (planEffect n) = [Z.min (k n) (n - 1)]) /\
  (exists last,
     get (sequence (planEffect n)) (len (sequence (planEffect n)) - 1) = Some last /\
     last <= n - 1 /\
     (k n < n ->
      len (sequence (planEffect n)) < k n /\
      n - 1 - last < k n - len (sequence (planEffect n))) /\
     (n <= k n -> last = n - 1)).
Proof.
  intros Hn.
  split; [apply planned_nonempty; assumption |].
  split; [apply planned_floors; assumption |].
  destruct (planned_cases n Hn) as [(Hlt & Hne & L) | (Hge & Hs)].
  - split; [intros i x y; apply (ladder_gap _ _ _ _ L) |].
    split.
    { intros _. destruct (sequence (planEffect n)) as [| z rest]; [contradiction |].
      apply ladder_head in L. destruct L as (-> & _). reflexivity. }
    split; [lia |].
    destruct (planned_coverage n Hn Hlt) as (x & Ex & Hx & Hl).
    exists x. split; [assumption |].
    pose proof (planned_floors n Hn _ _ Ex).
    split; [lia |]. split; [intros _; lia | lia].
  - split.
    + intros i x y Ex Ey. rewrite Hs in Ex, Ey.
      pose proof (get_Some_range _ _ _ Ex). pose proof (get_Some_range _ _ _ Ey).
      change (len [Z.min (k n) (n - 1)]) with 1 in *. lia.
    + split; [lia |]. split; [intros _; assumption |].
      exists (Z.min (k n) (n - 1)). rewrite Hs. split; [reflexivity |].
      split; [lia |]. split; lia.
Qed.

Lemma planned_sequence_shape_witness :
  0 < 10 /\
  sequence (planEffect 10) <> [] /\
  (forall i x, get (sequence (planEffect 10)) i = Some x -> 0 <= x <= 10 - 1) /\
  (forall i x y,
     get (sequence (planEffect 10)) i = Some x ->
     get (sequence (planEffect 10)) (i + 1) = Some y ->
     x < y /\ y - x = k 10 - 1 - i) /\
  (k 10 < 10 -> get (sequence (planEffect 10)) 0 = Some (k 10)) /\
  (10 <= k 10 -> sequence (planEffect 10) = [Z.min (k 10) (10 - 1)]) /\
  (exists last,
     get (sequence (planEffect 10)) (len (sequence (planEffect 10)) - 1) = Some last /\
     last <= 10 - 1 /\
     (k 10 < 10 ->
      len (sequence (planEffect 10)) < k 10 /\
      10 - 1 - last < k 10 - len (sequence (planEffect 10))) /\
     (10 <= k 10 -> last = 10 - 1)).
Proof.
  split; [lia |]. apply (planned_sequence_shape 10). lia.
Defined.

(** C5, as worded, has the engine report [finished = true] as soon as a
    configuration with [n <= 0] is applied.  With [n = 0] the flag is
    [false]. *)
Lemma planned_nonpositive_not_finished :
  ~ (sequence (planEffect 0) = [] /\ finished (planEffect 0) = true /\
     drops (planEffect 0) = [] /\ totalDrops (planEffect 0) = 0 /\
     foundFloor (planEffect 0) = None).
Proof.
  intros (_ & H & _). discriminate H.
Qed.

(** C5, amended.  For every [n <= 0], applying the configuration leaves the
    empty state: empty sequence, no drops, no found floor, [finished] still
    [false]; the first call of [step] then sets [finished] without recording
    a drop or a found floor and returns the terminal marker. *)
Theorem planned_nonpositive (n secretF : Z) :
  n <= 0 ->
  sequence (planEffect n) = [] /\ drops (planEffect n) = [] /\
  totalDrops (planEffect n) = 0 /\ foundFloor (planEffect n) = None /\
  finished (planEffect n) = false /\
  step secretF (planEffect n) =
    ({| sequence := []; drops := []; foundFloor := None; totalDrops := 0;
        finished := true |}, finishedResult).
Proof.
  intros Hn. unfold planEffect.
  destruct (Z.leb_spec n 0); [| lia].
  repeat split; reflexivity.
Qed.

Lemma planned_nonpositive_witness :
  -3 <= 0 /\
  sequence (planEffect (-3)) = [] /\ drops (planEffect (-3)) = [] /\
  totalDrops (planEffect (-3)) = 0 /\ foundFloor (planEffect (-3)) = None /\
  finished (planEffect (-3)) = false /\
  step 0 (planEffect (-3)) =
    ({| sequence := []; drops := []; foundFloor := None; totalDrops := 0;
        finished := true |}, finishedResult).
Proof.
  split; [lia |]. apply (planned_nonpositive (-3) 0). lia.
Defined.

(** C6.  In a finished state [step] changes nothing (sequence, drops, found
    floor, count and flag all stay) and returns the terminal marker; this
    stays so however often it is called, so no drop is appended any more. *)
Theorem step_finished_noop (secretF : Z) (s : SolverState) :
  finished s = true ->
  step secretF s = (s, finishedResult) /\
  forall m, steps secretF m s = s.
Proof.
  intros Hfin.
  assert (step secretF s = (s, finishedResult)) as E
    by (unfold step; rewrite Hfin; reflexivity).
  split; [assumption |].
  induction m as [| m IH]; cbn [steps]; [reflexivity |].
  rewrite E. exact IH.
Qed.

Lemma step_finished_noop_witness :
  finished (fst (runAll 10 7 (planEffect 10))) = true /\
  step 7 (fst (runAll 10 7 (planEffect 10))) =
    (fst (runAll 10 7 (planEffect 10)), finishedResult) /\
  forall m, steps 7 m (fst (runAll 10 7 (planEffect 10))) =
            fst (runAll 10 7 (planEffect 10)).
Proof.
  split; [reflexivity |].
  apply (step_finished_noop 7 (fst (runAll 10 7 (planEffect 10)))).
  reflexivity.
Defined.

(** C7.  [totalDrops = length drops] holds in the initial state, after
    planning and after [reset], and [step] and [runAll] preserve it. *)
Theorem counts_drops_invariant (n secretF : Z) (s : SolverState) :
  (counts_drops emptyState /\ counts_drops (planEffect n) /\ counts_drops reset) /\
  (counts_drops s ->
   counts_drops (fst (step secretF s)) /\ counts_drops (fst (runAll n secretF s))).
Proof.
  split.
  - split; [reflexivity |]. split; [| reflexivity].
    unfold planEffect. destruct (n <=? 0); reflexivity.
  - unfold counts_drops. intros Hs. split.
    + destruct (step_effect secretF s) as (_ & [(-> & ->) | (x & -> & ->)]).
      * assumption.
      * rewrite len_app. change (len [x]) with 1. lia.
    + apply runAll_counts.
Qed.

Lemma counts_drops_invariant_witness :
  counts_drops (planEffect 10) /\
  counts_drops (fst (step 7 (planEffect 10))) /\
  counts_drops (fst (runAll 10 7 (planEffect 10))).
Proof.
  split; [reflexivity |].
  apply (proj2 (counts_drops_invariant 10 7 (planEffect 10))).
  reflexivity.
Defined.

(** C8.  The planner's output depends on [n] only: two mounts of the hook
    that differ in [secretF] alone get the same [k] and the same planned
    state, hence the same sequence. *)
Theorem plan_ignores_secret (n secretF1 secretF2 : Z) :
  hook_k (useCrystalBallSolver {| props_n := n; props_secretF := secretF1 |}) =
  hook_k (useCrystalBallSolver {| props_n := n; props_secretF := secretF2 |}) /\
  sequence (hook_state
              (useCrystalBallSolver {| props_n := n; props_secretF := secretF1 |})) =
  sequence (hook_state
              (useCrystalBallSolver {| props_n := n; props_secretF := secretF2 |})).
Proof.
  split; reflexivity.
Qed.

(** C9.  Once [drops] holds a breaking entry, every floor that later calls
    of [step] append is at most the first breaking entry. *)
Theorem scan_stays_below_break (secretF : Z) (s : SolverState) (b : Z) (m : nat) :
  findIndex (testBreaks secretF) (drops s) <> -1 ->
  get (drops s) (findIndex (testBreaks secretF) (drops s)) = Some b ->
  exists ext, drops (steps secretF m s) = drops s ++ ext /\
              Forall (fun x => x <= b) ext.
Proof.
  apply steps_after_break.
Qed.

Lemma scan_stays_below_break_witness :
  findIndex (testBreaks 7) (drops (steps 7 2 (planEffect 10))) <> -1 /\
  get (drops (steps 7 2 (planEffect 10)))
      (findIndex (testBreaks 7) (drops (steps 7 2 (planEffect 10)))) = Some 7 /\
  exists ext,
    drops (steps 7 5 (steps 7 2 (planEffect 10))) =
      drops (steps 7 2 (planEffect 10)) ++ ext /\
    Forall (fun x => x <= 7) ext.
Proof.
  split; [discriminate |]. split; [reflexivity |].
  apply (scan_stays_below_break 7 (steps 7 2 (planEffect 10)) 7 5).
  - discriminate.
  - reflexivity.
Defined.

(** C10.  For every [n > 0] and [0 <= secretF < n], after [runAll] the drops
    are non-empty and the found floor is the last drop. *)
Theorem runAll_found_is_last_drop (n secretF : Z) :
  0 < n -> 0 <= secretF < n ->
  drops (fst (runAll n secretF (planEffect n))) <> [] /\
  get (drops (fst (runAll n secretF (planEffect n))))
      (len (drops (fst (runAll n secretF (planEffect n)))) - 1) =
  foundFloor (fst (runAll n secretF (planEffect n))).
Proof.
  intros _ Hr.
  destruct (runAll_finds n secretF (planEffect n) Hr) as (-> & l & ->).
  split.
  - destruct l; discriminate.
  - apply get_last.
Qed.

Lemma runAll_found_is_last_drop_witness :
  0 < 10 /\ 0 <= 7 < 10 /\
  drops (fst (runAll 10 7 (planEffect 10))) <> [] /\
  get (drops (fst (runAll 10 7 (planEffect 10))))
      (len (drops (fst (runAll 10 7 (planEffect 10)))) - 1) =
  foundFloor (fst (runAll 10 7 (planEffect 10))).
Proof.
  split; [lia |]. split; [lia |].
  apply (runAll_found_is_last_drop 10 7); lia.
Defined.

(** * Further properties of the code *)

(** ** [runAll] from an arbitrary state *)

Lemma steps_sequence (secretF : Z) (m : nat) (s : SolverState) :
  sequence (steps secretF m s) = sequence s.
Proof.
  revert s. induction m as [| m IH]; intros s; cbn [steps]; [reflexivity |].
  rewrite IH. apply step_effect.
Qed.

Lemma runAll_reads_sequence (n secretF : Z) (s1 s2 : SolverState) :
  sequence s1 = sequence s2 -> runAll n secretF s1 = runAll n secretF s2.
Proof.
  intros E. unfold runAll. rewrite E. reflexivity.
Qed.

(** X1.  For a valid configuration [runAll] finds [secretF] from every state,
    whatever sequence, drops and flags it holds (after [reset], in the middle
    of stepping, after an earlier run): it sets [finished], keeps the
    sequence, and records [secretF] as its last drop. *)
Theorem runAll_from_any_state (n secretF : Z) (s : SolverState) :
  0 <= secretF < n ->
  foundFloor (fst (runAll n secretF s)) = Some secretF /\
  finished (fst (runAll n secretF s)) = true /\
  sequence (fst (runAll n secretF s)) = sequence s /\
  (exists l, drops (fst (runAll n secretF s)) = l ++ [secretF]) /\
  found (snd (runAll n secretF s)) = Some secretF.
Proof.
  intros Hr. destruct (runAll_finds n secretF s Hr) as (Hf & Hd).
  split; [assumption |]. split; [reflexivity |]. split; [reflexivity |].
  split; [assumption |]. exact Hf.
Qed.

Lemma runAll_from_any_state_witness :
  0 <= 2 < 10 /\
  foundFloor (fst (runAll 10 2 reset)) = Some 2 /\
  finished (fst (runAll 10 2 reset)) = true /\
  sequence (fst (runAll 10 2 reset)) = sequence reset /\
  (exists l, drops (fst (runAll 10 2 reset)) = l ++ [2]) /\
  found (snd (runAll 10 2 reset)) = Some 2.
Proof.
  split; [lia |]. apply (runAll_from_any_state 10 2 reset). lia.
Defined.

(** X2.  [runAll] recomputes from the sequence alone: drops, count, found
    floor and flag of the state it starts from do not matter.  So running it
    after any number of [step] calls, or a second time, gives what a single
    run from the start gives. *)
Theorem runAll_ignores_progress (n secretF : Z) (s : SolverState) (m : nat) :
  runAll n secretF (steps secretF m s) = runAll n secretF s /\
  runAll n secretF (fst (runAll n secretF s)) = runAll n secretF s /\
  (forall dr ff td fin,
     runAll n secretF {| sequence := sequence s; drops := dr; foundFloor := ff;
                         totalDrops := td; finished := fin |} =
     runAll n secretF s).
Proof.
  split; [apply runAll_reads_sequence, steps_sequence |].
  split; [apply runAll_reads_sequence; reflexivity |].
  intros dr ff td fin. apply runAll_reads_sequence. reflexivity.
Qed.

(** ** What [step] reports and what it records *)

(** The cases of one call of [step], with what it returns in each. *)
Lemma step_cases (secretF : Z) (s : SolverState) :
  (snd (step secretF s) = finishedResult /\
   drops (fst (step secretF s)) = drops s /\
   totalDrops (fst (step secretF s)) = totalDrops s /\
   foundFloor (fst (step secretF s)) = foundFloor s /\
   finished (fst (step secretF s)) = true) \/
  (exists x,
     floorTested (snd (step secretF s)) = Some x /\
     broke (snd (step secretF s)) = Some (testBreaks secretF x) /\
     drops (fst (step secretF s)) = drops s ++ [x] /\
     totalDrops (fst (step secretF s)) = totalDrops s + 1 /\
     ((action (snd (step secretF s)) = "found"%string /\
       testBreaks secretF x = true /\
       foundFloor (fst (step secretF s)) = Some x /\
       finished (fst (step secretF s)) = true) \/
      (action (snd (step secretF s)) <> "found"%string /\
       action (snd (step secretF s)) <> "finished"%string /\
       foundFloor (fst (step secretF s)) = foundFloor s /\
       finished (fst (step secretF s)) = false))).
Proof.
  unfold step. destruct (finished s) eqn:Hfin; [left; cbn; auto |].
  destruct (step_phase1 secretF s) as [r |] eqn:E1.
  - right. unfold step_phase1 in E1.
    destruct (findIndex (testBreaks secretF) (drops s) =? -1); [| discriminate].
    destruct (len (drops s) <? len (sequence s)); [| discriminate].
    destruct (get (sequence s) (len (drops s))) as [x |]; [| discriminate].
    injection E1 as <-. exists x. cbn.
    repeat split; try assumption. right.
    destruct (testBreaks secretF x); repeat split; try assumption; discriminate.
  - destruct (step_phase2 secretF s) as [r |] eqn:E2; [| left; cbn; auto].
    right. unfold step_phase2 in E2.
    destruct (negb (findIndex (testBreaks secretF) (drops s) =? -1)); [| discriminate].
    destruct (get (drops s) (findIndex (testBreaks secretF) (drops s)));
      [| discriminate].
    destruct (if findIndex (testBreaks secretF) (drops s) =? 0
              then Some (-1)
              else get (drops s) (findIndex (testBreaks secretF) (drops s) - 1))
      as [prevSafe |]; [| discriminate].
    match type of E2 with
    | (if ?c then _ else _) = _ => destruct c; [| discriminate]
    end.
    match type of E2 with
    | (if testBreaks secretF ?x then _ else _) = _ =>
        exists x; destruct (testBreaks secretF x) eqn:Eb
    end; injection E2 as <-; cbn; repeat split; try assumption.
    + left. repeat split.
    + right. repeat split; try assumption; discriminate.
Qed.

(** X3.  The description [step] returns matches what it did to the state:
    either it reports ["finished"], tests no floor, leaves drops, count and
    found floor alone and sets [finished]; or it reports the floor it tested,
    appends exactly that floor, counts it, and reports [broke] as the break
    predicate of that floor, setting the found floor and [finished] exactly
    when the action is ["found"]. *)
Theorem step_result_describes_change (secretF : Z) (s : SolverState) :
  (snd (step secretF s) = finishedResult /\
   drops (fst (step secretF s)) = drops s /\
   totalDrops (fst (step secretF s)) = totalDrops s /\
   foundFloor (fst (step secretF s)) = foundFloor s /\
   finished (fst (step secretF s)) = true) \/
  (exists x,
     floorTested (snd (step secretF s)) = Some x /\
     broke (snd (step secretF s)) = Some (testBreaks secretF x) /\
     drops (fst (step secretF s)) = drops s ++ [x] /\
     totalDrops (fst (step secretF s)) = totalDrops s + 1 /\
     ((action (snd (step secretF s)) = "found"%string /\
       testBreaks secretF x = true /\
       foundFloor (fst (step secretF s)) = Some x /\
       finished (fst (step secretF s)) = true) \/
      (action (snd (step secretF s)) <> "found"%string /\
       action (snd (step secretF s)) <> "finished"%string /\
       foundFloor (fst (step secretF s)) = foundFloor s /\
       finished (fst (step secretF s)) = false))).
Proof.
  apply step_cases.
Qed.

(** X4.  A found floor is only ever present in a finished state: this holds
    for the initial state, after planning and after [reset], and [step] and
    [runAll] preserve it. *)
Theorem found_only_when_finished (n secretF : Z) (s : SolverState) :
  (foundFloor emptyState = None /\ foundFloor (planEffect n) = None /\
   foundFloor reset = None) /\
  ((foundFloor s <> None -> finished s = true) ->
   (foundFloor (fst (step secretF s)) <> None ->
    finished (fst (step secretF s)) = true) /\
   finished (fst (runAll n secretF s)) = true).
Proof.
  split.
  - split; [reflexivity |]. split; [| reflexivity].
    unfold planEffect. destruct (n <=? 0); reflexivity.
  - intros Hinv. split; [| reflexivity].
    destruct (step_cases secretF s) as [(_ & _ & _ & _ & Hfin) | H];
      [intros _; exact Hfin |].
    destruct H as (x & _ & _ & _ & _ & [(_ & _ & _ & Hfin) | (_ & _ & Hff & Hfin)]).
    + intros _. exact Hfin.
    + rewrite Hff. intros Hne. specialize (Hinv Hne). 
      destruct (finished s) eqn:Hs; [| discriminate].
      unfold step in Hfin. rewrite Hs in Hfin. cbn in Hfin. congruence.
Qed.

Lemma found_only_when_finished_witness :
  (foundFloor (steps 7 3 (planEffect 10)) <> None ->
   finished (steps 7 3 (planEffect 10)) = true) /\
  (foundFloor (fst (step 7 (steps 7 3 (planEffect 10)))) <> None ->
   finished (fst (step 7 (steps 7 3 (planEffect 10)))) = true) /\
  finished (fst (runAll 10 7 (steps 7 3 (planEffect 10)))) = true.
Proof.
  split; [intros H; exfalso; apply H; reflexivity |].
  apply (proj2 (found_only_when_finished 10 7 (steps 7 3 (planEffect 10)))).
  intros H. exfalso. apply H. reflexivity.
Defined.

(** ** More about the planner *)

(** X5.  [k] is [0] exactly for [n <= 0], never exceeds [n] for [n >= 0],
    and grows with [n]. *)
Theorem k_edge_and_growth (n m : Z) :
  n <= m ->
  (k n = 0 <-> n <= 0) /\ k n <= Z.max 0 n /\ k n <= k m.
Proof.
  intros Hnm.
  destruct (k_spec n) as (Hn0 & Hnge & Hnmin).
  destruct (k_spec m) as (Hm0 & Hmge & Hmmin).
  split; [| split].
  - split.
    + intros E. rewrite E in Hnge. cbn in Hnge. assumption.
    + intros Hle. destruct (Z.eq_dec (k n) 0) as [| Hne]; [assumption | exfalso].
      specialize (Hnmin 0 ltac:(lia)). cbn in Hnmin. lia.
  - destruct (Z_le_dec (k n) (Z.max 0 n)) as [| Hgt]; [assumption | exfalso].
    specialize (Hnmin (Z.max 0 n) ltac:(lia)).
    assert (Z.max 0 n <= Z.max 0 n * (Z.max 0 n + 1) / 2)
      by (apply Z.div_le_lower_bound; nia).
    lia.
  - destruct (Z_le_dec (k n) (k m)) as [| Hgt]; [assumption | exfalso].
    specialize (Hnmin (k m) ltac:(lia)). lia.
Qed.

Lemma k_edge_and_growth_witness :
  10 <= 11 /\ (k 10 = 0 <-> 10 <= 0) /\ k 10 <= Z.max 0 10 /\ k 10 <= k 11.
Proof.
  split; [lia |]. apply (k_edge_and_growth 10 11). lia.
Defined.

Lemma ladder_entry (n step current : Z) (l : list Z) :
  ladder n step current l ->
  forall i x, get l i = Some x ->
              2 * x = 2 * current + 2 * i * step - i * (i + 1).
Proof.
  induction 1 as [step current Hexit | step current rest Hlt Hpos L IH];
    intros i x E.
  - unfold get in E. destruct (i <? 0); [discriminate |].
    destruct (Z.to_nat i); discriminate.
  - pose proof (get_Some_range _ _ _ E) as Hr.
    destruct (Z.eq_dec i 0) as [-> | Hi].
    + cbn in E. injection E as <-. lia.
    + replace i with (i - 1 + 1) in E by ring.
      rewrite get_cons_succ in E by lia.
      specialize (IH _ _ E). nia.
Qed.

Lemma ladder_length (n step current : Z) (l : list Z) :
  ladder n step current l -> len l <= Z.max 0 step.
Proof.
  induction 1 as [step current Hexit | step current rest Hlt Hpos L IH].
  - change (len []) with 0. lia.
  - rewrite len_cons. lia.
Qed.

(** X6.  When a full step fits ([k < n]), entry [i] of the planned sequence
    is [k + (k - 1) + ... + (k - i)], that is
    [(i + 1) * k - i * (i + 1) / 2]. *)
Theorem planned_entry_closed_form (n i x : Z) :
  0 < n -> k n < n ->
  get (sequence (planEffect n)) i = Some x ->
  2 * x = 2 * (i + 1) * k n - i * (i + 1).
Proof.
  intros Hn Hlt E.
  destruct (planned_cases n Hn) as [(_ & _ & L) | (Hge & _)]; [| lia].
  pose proof (ladder_entry _ _ _ _ L _ _ E). lia.
Qed.

Lemma planned_entry_closed_form_witness :
  0 < 10 /\ k 10 < 10 /\ get (sequence (planEffect 10)) 2 = Some 9 /\
  2 * 9 = 2 * (2 + 1) * k 10 - 2 * (2 + 1).
Proof.
  split; [lia |]. split; [vm_compute; reflexivity |]. split; [reflexivity |].
  apply (planned_entry_closed_form 10 2 9); [lia | vm_compute; reflexivity | reflexivity].
Defined.

(** X7.  The planned sequence has at most [k] entries, and when a full step
    fits ([k < n]) fewer floors remain above its last entry than the next
    step would have skipped: [n - 1 - last < k - length]. *)
Theorem planned_length_and_reach (n : Z) :
  0 < n ->
  len (sequence (planEffect n)) <= k n /\
  (k n < n ->
   exists x,
     get (sequence (planEffect n)) (len (sequence (planEffect n)) - 1) = Some x /\
     n - 1 - x < k n - len (sequence (planEffect n))).
Proof.
  intros Hn. pose proof (k_pos n Hn) as Hk. split.
  - destruct (planned_cases n Hn) as [(_ & _ & L) | (_ & ->)].
    + pose proof (ladder_length _ _ _ _ L). lia.
    + change (len [Z.min (k n) (n - 1)]) with 1. lia.
  - intros Hlt. destruct (planned_coverage n Hn Hlt) as (x & Ex & Hx & _).
    exists x. split; [assumption | lia].
Qed.

Lemma planned_length_and_reach_witness :
  0 < 10 /\
  len (sequence (planEffect 10)) <= k 10 /\
  (k 10 < 10 ->
   exists x,
     get (sequence (planEffect 10)) (len (sequence (planEffect 10)) - 1) = Some x /\
     10 - 1 - x < k 10 - len (sequence (planEffect 10))).
Proof.
  split; [lia |]. apply (planned_length_and_reach 10). lia.
Defined.

(** ** Every recorded drop is a floor of the building *)

Lemma Forall_of_get (P : Z -> Prop) (a : list Z) :
  (forall i x, get a i = Some x -> P x) -> Forall P a.
Proof.
  induction a as [| y a IH]; intros H; constructor.
  - apply (H 0). reflexivity.
  - apply IH. intros i x E. apply (H (i + 1)).
    pose proof (get_Some_range _ _ _ E).
    rewrite get_cons_succ by lia. assumption.
Qed.

Lemma scan_le_range (secretF f : Z) (sim : Sim) (lin : Z) :
  exists ext, simDrops (scan_le secretF f sim lin) = simDrops sim ++ ext /\
              Forall (fun x => lin <= x <= f) ext.
Proof.
  funelim (scan_le secretF f sim lin);
    try (exists []; rewrite app_nil_r; split; [reflexivity | constructor]);
    match goal with
    | E : probe _ _ _ = _ |- _ => destruct (probe_inv _ _ _ _ _ E) as (Hd & _ & _ & _)
    end.
  - exists [lin]. split; [assumption |]. constructor; [lia | constructor].
  - match goal with IH : exists _, _ |- _ => destruct IH as (ext & Ed & Ha) end.
    exists (lin :: ext). rewrite Ed, Hd, <- app_assoc. split; [reflexivity |].
    constructor; [lia |]. eapply Forall_impl; [| exact Ha]. cbn. intros; lia.
Qed.

Lemma scan_lt_range (n secretF : Z) (sim : Sim) (lin : Z) :
  exists ext, simDrops (scan_lt n secretF sim lin) = simDrops sim ++ ext /\
              Forall (fun x => lin <= x < n) ext.
Proof.
  funelim (scan_lt n secretF sim lin);
    try (exists []; rewrite app_nil_r; split; [reflexivity | constructor]);
    match goal with
    | E : probe _ _ _ = _ |- _ => destruct (probe_inv _ _ _ _ _ E) as (Hd & _ & _ & _)
    end.
  - exists [lin]. split; [assumption |]. constructor; [lia | constructor].
  - match goal with IH : exists _, _ |- _ => destruct IH as (ext & Ed & Ha) end.
    exists (lin :: ext). rewrite Ed, Hd, <- app_assoc. split; [reflexivity |].
    constructor; [lia |]. eapply Forall_impl; [| exact Ha]. cbn. intros; lia.
Qed.

Lemma first_phase_range (n secretF : Z) (seq : list Z) (sim : Sim) (i : Z) :
  Forall (fun x => 0 <= x < n) seq ->
  Forall (fun x => 0 <= x < n) (simDrops sim) ->
  Forall (fun x => 0 <= x < n) (simDrops (first_phase secretF seq sim i)).
Proof.
  funelim (first_phase secretF seq sim i); intros Hseq Hsim; try assumption;
    match goal with
    | G : get _ i = Some _ |- _ =>
        pose proof (Forall_get _ _ _ _ Hseq G) as Hf; cbn in Hf
    end.
  - match goal with IH : forall _ : Z, _ -> _ -> Forall _ _ |- _ => apply IH; [assumption |] end.
    cbn [simDrops]. unfold push. apply Forall_app. split; [assumption |].
    constructor; [assumption | constructor].
  - assert (-1 <= prevSafe) as Hp.
    { destruct (i =? 0).
      - match goal with E : Some _ = Some prevSafe |- _ => injection E as <- end. lia.
      - match goal with
        | G : get _ _ = Some prevSafe |- _ =>
            pose proof (Forall_get _ _ _ _ Hseq G) as Hq; cbn in Hq; lia
        end. }
    match goal with
    | |- context [scan_le secretF f ?s ?lo] =>
        destruct (scan_le_range secretF f s lo) as (ext & -> & Ha)
    end.
    cbn [simDrops]. unfold push. rewrite !Forall_app. repeat split.
    + assumption.
    + constructor; [assumption | constructor].
    + eapply Forall_impl; [| exact Ha]. cbn. intros; lia.
  - cbn [simDrops]. unfold push. apply Forall_app. split; [assumption |].
    constructor; [assumption | constructor].
Qed.

Lemma runAll_range (n secretF : Z) (s : SolverState) :
  Forall (fun x => 0 <= x < n) (sequence s) ->
  Forall (fun x => 0 <= x < n) (drops (fst (runAll n secretF s))).
Proof.
  intros Hseq. unfold runAll. cbn [fst drops].
  pose proof (first_phase_range n secretF (sequence s)
                {| simDrops := []; found := None; total := 0 |} 0 Hseq
                ltac:(constructor)) as Hfp.
  revert Hfp.
  generalize (first_phase secretF (sequence s)
                {| simDrops := []; found := None; total := 0 |} 0) as fp.
  intros fp Hfp. unfold fallback. destruct (found fp); [assumption |].
  destruct (if negb (len (simDrops fp) =? 0)
            then get (simDrops fp) (len (simDrops fp) - 1)
            else Some (-1)) as [lastTested |] eqn:El; [| assumption].
  assert (-1 <= lastTested) as Hl.
  { destruct (len (simDrops fp) =? 0); cbn [negb] in El.
    - injection El as <-. lia.
    - pose proof (Forall_get _ _ _ _ Hfp El) as Hq. cbn in Hq. lia. }
  destruct (scan_lt_range n secretF fp (lastTested + 1)) as (ext & -> & Ha).
  apply Forall_app. split; [assumption |].
  eapply Forall_impl; [| exact Ha]. cbn. intros; lia.
Qed.

Lemma planned_in_range (n : Z) :
  Forall (fun x => 0 <= x < n) (sequence (planEffect n)).
Proof.
  destruct (Z_lt_dec 0 n) as [Hn | Hn].
  - apply Forall_of_get. intros i x E.
    pose proof (planned_floors n Hn i x E). lia.
  - unfold planEffect. destruct (Z.leb_spec n 0); [constructor | lia].
Qed.

(** X8.  Whatever [n] and [secretF] are, every drop [runAll] records from the
    planned state is a floor index in [0 .. n - 1]; for [n <= 0] it records
    none. *)
Theorem runAll_drops_are_floors (n secretF : Z) :
  Forall (fun x => 0 <= x < n) (drops (fst (runAll n secretF (planEffect n)))) /\
  (n <= 0 -> drops (fst (runAll n secretF (planEffect n))) = []).
Proof.
  split; [apply runAll_range, planned_in_range |].
  intros Hn.
  pose proof (runAll_range n secretF (planEffect n) (planned_in_range n)) as H.
  destruct (drops (fst (runAll n secretF (planEffect n)))) as [| x rest];
    [reflexivity |].
  inversion H; subst. lia.
Qed.

Lemma runAll_drops_are_floors_witness :
  -2 <= 0 /\ drops (fst (runAll (-2) 0 (planEffect (-2)))) = [].
Proof.
  split; [lia |]. apply (proj2 (runAll_drops_are_floors (-2) 0)). lia.
Defined.

Lemma step_range (n secretF : Z) (s : SolverState) :
  Forall (fun x => 0 <= x < n) (sequence s) ->
  Forall (fun x => 0 <= x < n) (drops s) ->
  Forall (fun x => 0 <= x < n) (drops (fst (step secretF s))).
Proof.
  intros Hseq Hdr. unfold step. destruct (finished s); [assumption |].
  destruct (step_phase1 secretF s) as [r |] eqn:E1.
  - unfold step_phase1 in E1.
    destruct (findIndex (testBreaks secretF) (drops s) =? -1); [| discriminate].
    destruct (len (drops s) <? len (sequence s)); [| discriminate].
    destruct (get (sequence s) (len (drops s))) as [x |] eqn:Ex; [| discriminate].
    injection E1 as <-. cbn [fst drops]. apply Forall_app. split; [assumption |].
    constructor; [| constructor]. exact (Forall_get _ _ _ _ Hseq Ex).
  - destruct (step_phase2 secretF s) as [r |] eqn:E2; [| assumption].
    unfold step_phase2 in E2.
    destruct (Z.eqb_spec (findIndex (testBreaks secretF) (drops s)) (-1)) as [| Hne];
      [discriminate |]. cbn [negb] in E2.
    pose proof (findIndexFrom_range (testBreaks secretF) (drops s) 0) as Hj.
    fold (findIndex (testBreaks secretF) (drops s)) in Hj.
    destruct Hj as [Hj | Hj]; [contradiction |].
    destruct (get (drops s) (findIndex (testBreaks secretF) (drops s)))
      as [breakFloor |] eqn:Eb; [| discriminate].
    pose proof (Forall_get _ _ _ _ Hdr Eb) as Hb. cbn in Hb.
    destruct (if findIndex (testBreaks secretF) (drops s) =? 0
              then Some (-1)
              else get (drops s) (findIndex (testBreaks secretF) (drops s) - 1))
      as [prevSafe |] eqn:Ep; [| discriminate].
    assert (-1 <= prevSafe) as Hp.
    { destruct (findIndex (testBreaks secretF) (drops s) =? 0).
      - injection Ep as <-. lia.
      - pose proof (Forall_get _ _ _ _ Hdr Ep) as Hq. cbn in Hq. lia. }
    match type of E2 with
    | (if ?x <=? breakFloor then _ else _) = _ =>
        destruct (Z.leb_spec x breakFloor) as [Hle | Hgt]; [| discriminate]
    end.
    match type of E2 with
    | (if ?c then _ else _) = _ => destruct c
    end; injection E2 as <-; cbn [fst drops]; apply Forall_app;
      (split; [assumption | constructor; [lia | constructor]]).
Qed.

(** X9.  Stepping keeps to the building as well: after any number of [step]
    calls from the planned state, every recorded drop is a floor index in
    [0 .. n - 1], whatever [n] and [secretF] are. *)
Theorem steps_drops_are_floors (n secretF : Z) (m : nat) :
  Forall (fun x => 0 <= x < n) (drops (steps secretF m (planEffect n))).
Proof.
  assert (forall s,
             Forall (fun x => 0 <= x < n) (sequence s) ->
             Forall (fun x => 0 <= x < n) (drops s) ->
             Forall (fun x => 0 <= x < n) (drops (steps secretF m s))) as H.
  { induction m as [| m IH]; intros s Hseq Hdr; cbn [steps]; [assumption |].
    apply IH.
    - destruct (step_effect secretF s) as (-> & _). assumption.
    - apply step_range; assumption. }
  apply H; [apply planned_in_range |].
  unfold planEffect. destruct (n <=? 0); constructor.
Qed.

(** ** How many drops [runAll] needs *)

(** The first loop of [runAll], with its count: either it stops at the first
    planned floor [f] (index [j]) that breaks and scans from the floor after
    the previous planned floor [p] up to [secretF], or every remaining
    planned floor is safe and each costs one drop. *)
Lemma first_phase_break (secretF : Z) (seq : list Z) (sim : Sim) (i : Z) :
  0 <= secretF -> 0 <= i ->
  (i = 0 \/ exists p, get seq (i - 1) = Some p /\ p < secretF) ->
  (exists j f p,
      i <= j /\ get seq j = Some f /\ secretF <= f /\
      (if j =? 0 then Some (-1) else get seq (j - 1)) = Some p /\ p < secretF /\
      found (first_phase secretF seq sim i) = Some secretF /\
      total (first_phase secretF seq sim i) =
        total sim + (j - i + 1) + (secretF - p)) \/
  (found (first_phase secretF seq sim i) = found sim /\
   total (first_phase secretF seq sim i) = total sim + Z.max 0 (len seq - i) /\
   Forall (fun x => x < secretF) (skipn (Z.to_nat i) seq)).
Proof.
  funelim (first_phase secretF seq sim i); intros Hf Hi Hprev.
  - right. rewrite skipn_all2 by (unfold len in *; lia).
    split; [reflexivity |]. split; [lia | constructor].
  - exfalso. destruct (get_in_range sequence0 i) as (x & E); [lia | congruence].
  - match goal with E : testBreaks _ _ = false |- _ => apply testBreaks_false in E end.
    match goal with
    | IH : _ -> _ -> _ -> _ \/ _ |- _ =>
        destruct IH as [(j & f' & p & Hj & Gj & Hfj & Gp & Hp & Ff & Ft)
                       | (IHf & IHt & IHa)]; [assumption | lia | | |]
    end.
    + right. exists f. replace (i + 1 - 1) with i by ring. auto.
    + left. exists j, f', p. cbn [total] in Ft.
      repeat split; try assumption; lia.
    + right. cbn [found total] in IHf, IHt.
      match goal with E : get _ _ = Some f |- _ => rewrite (skipn_get _ _ _ E) end.
      split; [assumption |]. split; [lia |]. constructor; assumption.
  - left.
    match goal with E : testBreaks _ _ = true |- _ => apply testBreaks_true in E end.
    assert (prevSafe < secretF) as Hlo.
    { destruct (Z.eqb_spec i 0) as [-> | Hne].
      - match goal with E : Some _ = Some prevSafe |- _ => injection E as <- end. lia.
      - destruct Hprev as [-> | (p & Ep & Hp)]; [contradiction |].
        match goal with E : get _ _ = Some prevSafe |- _ => rewrite Ep in E; injection E as <- end.
        lia. }
    match goal with
    | |- context [scan_le secretF f ?s ?lo] =>
        destruct (scan_le_hit secretF f s lo) as (Sf & St & _); [lia |]
    end.
    exists i, f, prevSafe. cbn [total] in St.
    repeat split; try assumption; lia.
  - exfalso. destruct (Z.eqb_spec i 0) as [-> | Hne]; [discriminate |].
    destruct Hprev as [-> | (p & Ep & Hp)]; [contradiction | congruence].
Qed.

(** X10.  For a valid configuration [runAll] on the planned state never
    records more than [k + 2] drops.  (The bound is reached: with ten floors
    and the secret at floor 4 it records 4, 0, 1, 2, 3, 4.) *)
Theorem runAll_drop_bound (n secretF : Z) :
  0 < n -> 0 <= secretF < n ->
  totalDrops (fst (runAll n secretF (planEffect n))) <= k n + 2.
Proof.
  intros Hn Hr. pose proof (k_pos n Hn) as Hk.
  unfold runAll. cbn [fst totalDrops].
  set (sim0 := {| simDrops := []; found := None; total := 0 |}).
  destruct (first_phase_break secretF (sequence (planEffect n)) sim0 0)
    as [(j & f & p & Hj & Gj & Hfj & Gp & Hp & Ff & Ft) | (Ff & Ft & Fa)];
    [lia | lia | auto | |].
  - unfold fallback. rewrite Ff, Ft. cbn [total sim0].
    destruct (planned_cases n Hn) as [(Hlt & _ & L) | (Hge & Hs)].
    + destruct (Z.eqb_spec j 0) as [-> | Hne].
      * injection Gp as <-.
        destruct (sequence (planEffect n)) as [| z rest]; [discriminate |].
        apply ladder_head in L. cbn in Gj. injection Gj as <-. lia.
      * replace j with (j - 1 + 1) in Gj by ring.
        pose proof (ladder_gap _ _ _ _ L _ _ _ Gp Gj). lia.
    + rewrite Hs in Gj. pose proof (get_Some_range _ _ _ Gj) as Hrj.
      change (len [Z.min (k n) (n - 1)]) with 1 in Hrj.
      assert (j = 0) as -> by lia. cbn in Gj, Gp.
      injection Gj as <-. injection Gp as <-. lia.
  - cbn [Z.to_nat skipn found total sim0] in Ff, Ft, Fa.
    destruct (first_phase_outcome secretF (sequence (planEffect n)) sim0 0)
      as [(Ff' & _) | (_ & Fd & _)]; [lia | lia | auto | congruence |].
    cbn [Z.to_nat skipn simDrops sim0 app] in Fd.
    destruct (planned_cases n Hn) as [(Hlt & Hne & L) | (Hge & Hs)].
    + destruct (planned_coverage n Hn Hlt) as (x & Ex & Hx & Hl).
      pose proof (Forall_get _ _ _ _ Fa Ex) as Hxs. cbn in Hxs.
      unfold fallback. rewrite Ff, Fd.
      destruct (Z.eqb_spec (len (sequence (planEffect n))) 0) as [E0 | E0].
      { pose proof (get_Some_range _ _ _ Ex). lia. }
      cbn [negb]. rewrite Ex.
      destruct (scan_lt_hit n secretF
                  (first_phase secretF (sequence (planEffect n)) sim0 0) (x + 1))
        as (_ & St & _); [lia |].
      rewrite St, Ft. pose proof (len_nonneg (sequence (planEffect n))). lia.
    + exfalso. rewrite Hs in Fa. inversion Fa; subst. lia.
Qed.

Lemma runAll_drop_bound_witness :
  0 < 10 /\ 0 <= 4 < 10 /\
  totalDrops (fst (runAll 10 4 (planEffect 10))) <= k 10 + 2.
Proof.
  split; [lia |]. split; [lia |]. apply (runAll_drop_bound 10 4); lia.
Defined.

Example run_10_4 :
  k 10 = 4 /\
  fst (runAll 10 4 (planEffect 10)) =
  {| sequence := [4; 7; 9]; drops := [4; 0; 1; 2; 3; 4]; foundFloor := Some 4;
     totalDrops := 6; finished := true |}.
Proof. split; reflexivity. Qed.

(** ** Stepping from the planned state *)

Lemma planEffect_fresh_all (n : Z) :
  planEffect n =
  {| sequence := sequence (planEffect n); drops := []; foundFloor := None;
     totalDrops := 0; finished := false |}.
Proof.
  destruct (Z_lt_dec 0 n) as [Hn | Hn]; [apply planEffect_fresh; assumption |].
  unfold planEffect. destruct (Z.leb_spec n 0); [reflexivity | lia].
Qed.

(** X11.  Stepping from the planned state always comes to an end, whatever
    [n] and [secretF] are: after finitely many [step] calls [finished] is
    set, the sequence is unchanged, the count is the number of drops, and the
    state is the one the first loop of [runAll] (inner scan included, fallback
    excluded) computes. *)
Theorem stepping_terminates (n secretF : Z) :
  exists fuel s',
    drive secretF fuel (planEffect n) = Some s' /\
    finished s' = true /\
    sequence s' = sequence (planEffect n) /\
    totalDrops s' = len (drops s') /\
    s' = installed (sequence (planEffect n))
           (first_phase secretF (sequence (planEffect n))
              {| simDrops := []; found := None; total := 0 |} 0).
Proof.
  destruct (drive_fresh secretF (sequence (planEffect n))) as (fuel & Hdrive).
  rewrite <- planEffect_fresh_all in Hdrive.
  eexists fuel, _. split; [exact Hdrive |].
  split; [reflexivity |]. split; [reflexivity |]. split; [| reflexivity].
  cbn [installed totalDrops drops].
  pose proof (first_phase_count secretF (sequence (planEffect n))
                {| simDrops := []; found := None; total := 0 |} 0) as H.
  cbn in H. lia.
Qed.

(** X12.  For [n > 0] and [secretF >= 0], stepping from the planned state
    until finished reports either no floor or [secretF], never another
    floor: it finds [secretF] when some planned floor is at or above it, and
    finishes without a found floor, having dropped exactly at the planned
    floors, when all of them are below it. *)
Theorem stepping_finds_iff_covered (n secretF : Z) :
  0 < n -> 0 <= secretF ->
  exists fuel s',
    drive secretF fuel (planEffect n) = Some s' /\
    ((exists i f, get (sequence (planEffect n)) i = Some f /\ secretF <= f) ->
     foundFloor s' = Some secretF) /\
    (Forall (fun x => x < secretF) (sequence (planEffect n)) ->
     foundFloor s' = None /\ drops s' = sequence (planEffect n)).
Proof.
  intros Hn Hf.
  destruct (drive_fresh secretF (sequence (planEffect n))) as (fuel & Hdrive).
  rewrite <- planEffect_fresh_all in Hdrive.
  eexists fuel, _. split; [exact Hdrive |].
  cbn [installed foundFloor drops].
  destruct (first_phase_outcome secretF (sequence (planEffect n))
              {| simDrops := []; found := None; total := 0 |} 0)
    as [(Ff & _) | (Ff & Fd & Fa)]; [lia | lia | auto | |].
  - split; [intros _; exact Ff |].
    intros Hsafe.
    pose proof (first_phase_all_safe secretF (sequence (planEffect n))
                  {| simDrops := []; found := None; total := 0 |} 0 Hsafe) as Hnone.
    cbn [found] in Hnone. congruence.
  - cbn [Z.to_nat skipn found simDrops app] in Ff, Fd, Fa. split.
    + intros (i & f & Ei & Hif). exfalso.
      pose proof (Forall_get _ _ _ _ Fa Ei) as Hlt. cbn in Hlt. lia.
    + intros _. split; assumption.
Qed.

Lemma stepping_finds_iff_covered_witness :
  0 < 5 /\ 0 <= 4 /\
  exists fuel s',
    drive 4 fuel (planEffect 5) = Some s' /\
    ((exists i f, get (sequence (planEffect 5)) i = Some f /\ 4 <= f) ->
     foundFloor s' = Some 4) /\
    (Forall (fun x => x < 4) (sequence (planEffect 5)) ->
     foundFloor s' = None /\ drops s' = sequence (planEffect 5)).
Proof.
  split; [lia |]. split; [lia |].
  apply (stepping_finds_iff_covered 5 4); lia.
Defined.

(** ** [runAll] outside the valid range *)

Lemma first_phase_past_end (secretF : Z) (seq : list Z) (sim : Sim) (i : Z) :
  len seq <= i -> first_phase secretF seq sim i = sim.
Proof.
  funelim (first_phase secretF seq sim i); intros Hi; try reflexivity; lia.
Qed.

Lemma scan_lt_past_end (n secretF : Z) (sim : Sim) (lin : Z) :
  n <= lin -> scan_lt n secretF sim lin = sim.
Proof.
  funelim (scan_lt n secretF sim lin); intros Hi; try reflexivity; lia.
Qed.

Lemma scan_lt_all_safe (n secretF : Z) (sim : Sim) (lin : Z) :
  n <= secretF -> found (scan_lt n secretF sim lin) = found sim.
Proof.
  funelim (scan_lt n secretF sim lin); intros Hs; try reflexivity;
    match goal with
    | E : probe _ _ _ = _ |- _ => destruct (probe_inv _ _ _ _ _ E) as (_ & _ & Hb & Hf)
    end.
  - apply testBreaks_true in Hb. lia.
  - match goal with IH : _ -> found _ = _ |- _ => rewrite IH by assumption end.
    assumption.
Qed.

(** X13.  A secret at or above [n] is not detected: for [n > 0] and
    [secretF >= n], [runAll] on the planned state reports the top floor
    [n - 1] as found although none of the drops it recorded broke. *)
Theorem runAll_secret_above_building (n secretF : Z) :
  0 < n -> n <= secretF ->
  foundFloor (fst (runAll n secretF (planEffect n))) = Some (n - 1) /\
  Forall (fun x => testBreaks secretF x = false)
         (drops (fst (runAll n secretF (planEffect n)))).
Proof.
  intros Hn Hs. split.
  - unfold runAll. cbn [fst foundFloor].
    assert (Forall (fun x => x < secretF) (sequence (planEffect n))) as Hsafe.
    { eapply Forall_impl; [| apply (planned_in_range n)]. cbn. intros; lia. }
    pose proof (first_phase_all_safe secretF (sequence (planEffect n))
                  {| simDrops := []; found := None; total := 0 |} 0 Hsafe) as Hnone.
    cbn [found] in Hnone. revert Hnone.
    generalize (first_phase secretF (sequence (planEffect n))
                  {| simDrops := []; found := None; total := 0 |} 0) as fp.
    intros fp Hnone. unfold fallback. rewrite Hnone.
    assert ((if n =? 0 then 0 else n - 1) = n - 1) as E
      by (destruct (Z.eqb_spec n 0); lia).
    destruct (if negb (len (simDrops fp) =? 0)
              then get (simDrops fp) (len (simDrops fp) - 1)
              else Some (-1)) as [lastTested |].
    + rewrite scan_lt_all_safe by assumption. rewrite Hnone, E. reflexivity.
    + rewrite Hnone, E. reflexivity.
  - eapply Forall_impl; [| apply runAll_range, planned_in_range].
    cbn. intros x Hx. apply testBreaks_false. lia.
Qed.

Lemma runAll_secret_above_building_witness :
  0 < 10 /\ 10 <= 12 /\
  foundFloor (fst (runAll 10 12 (planEffect 10))) = Some (10 - 1) /\
  Forall (fun x => testBreaks 12 x = false)
         (drops (fst (runAll 10 12 (planEffect 10)))).
Proof.
  split; [lia |]. split; [lia |]. apply (runAll_secret_above_building 10 12); lia.
Defined.

(** X14.  For [n <= 0] [runAll] on the planned state records no drop and
    still reports a found floor: [0] for [n = 0] and the negative number
    [n - 1] for [n < 0]. *)
Theorem runAll_no_floors (n secretF : Z) :
  n <= 0 ->
  fst (runAll n secretF (planEffect n)) =
  {| sequence := []; drops := []; totalDrops := 0; finished := true;
     foundFloor := Some (if n =? 0 then 0 else n - 1) |}.
Proof.
  intros Hn. unfold planEffect. destruct (Z.leb_spec n 0); [| lia].
  unfold runAll. cbn [sequence emptyState fst].
  rewrite first_phase_past_end by (change (len []) with 0; lia).
  unfold fallback. cbn [found simDrops]. change (len [] =? 0) with true. cbn [negb].
  rewrite scan_lt_past_end by lia.
  reflexivity.
Qed.

Lemma runAll_no_floors_witness :
  -3 <= 0 /\
  fst (runAll (-3) 0 (planEffect (-3))) =
  {| sequence := []; drops := []; totalDrops := 0; finished := true;
     foundFloor := Some (if -3 =? 0 then 0 else -3 - 1) |}.
Proof.
  split; [lia |]. apply (runAll_no_floors (-3) 0). lia.
Defined.

(** ** After [reset] *)

(** X15.  After [reset] the sequence is empty.  [step] then finishes at once
    without testing a floor, while [runAll], for a valid configuration, scans
    upwards from floor 0 and finds [secretF] after exactly [secretF + 1]
    drops, none of them above [secretF]. *)
Theorem after_reset (n secretF : Z) :
  0 <= secretF < n ->
  step secretF reset =
    ({| sequence := []; drops := []; foundFloor := None; totalDrops := 0;
        finished := true |}, finishedResult) /\
  foundFloor (fst (runAll n secretF reset)) = Some secretF /\
  totalDrops (fst (runAll n secretF reset)) = secretF + 1 /\
  Forall (fun x => 0 <= x <= secretF) (drops (fst (runAll n secretF reset))).
Proof.
  intros Hr. split; [reflexivity |].
  unfold runAll, reset. cbn [sequence emptyState fst foundFloor totalDrops drops].
  rewrite first_phase_past_end by (change (len []) with 0; lia).
  unfold fallback. cbn [found simDrops]. change (len [] =? 0) with true. cbn [negb].
  change (-1 + 1) with 0.
  destruct (scan_lt_hit n secretF {| simDrops := []; found := None; total := 0 |} 0)
    as (Sf & St & mid & Sd & Sl & Sa); [lia |].
  destruct (scan_lt_range n secretF {| simDrops := []; found := None; total := 0 |} 0)
    as (ext & Rd & Ra).
  rewrite Sf. split; [reflexivity |]. split; [rewrite St; cbn [total]; lia |].
  rewrite Sd. cbn [simDrops app]. apply Forall_app. split.
  - rewrite Sd in Rd. cbn [simDrops app] in Rd. rewrite <- Rd in Ra.
    apply Forall_app in Ra. destruct Ra as (Ra & _).
    rewrite Forall_forall in *. intros x Hx.
    specialize (Ra x Hx). specialize (Sa x Hx). cbn in *. lia.
  - constructor; [lia | constructor].
Qed.

Lemma after_reset_witness :
  0 <= 3 < 10 /\
  step 3 reset =
    ({| sequence := []; drops := []; foundFloor := None; totalDrops := 0;
        finished := true |}, finishedResult) /\
  foundFloor (fst (runAll 10 3 reset)) = Some 3 /\
  totalDrops (fst (runAll 10 3 reset)) = 3 + 1 /\
  Forall (fun x => 0 <= x <= 3) (drops (fst (runAll 10 3 reset))).
Proof.
  split; [lia |]. apply (after_reset 10 3). lia.
Defined.

(** ** The secret at the ground floor or below *)

Lemma first_phase_at_break (secretF : Z) (seq : list Z) (sim : Sim) (i f p : Z) :
  i < len seq -> get seq i = Some f -> testBreaks secretF f = true ->
  (if i =? 0 then Some (-1) else get seq (i - 1)) = Some p ->
  first_phase secretF seq sim i =
  scan_le secretF f
    {| simDrops := push (simDrops sim) f; found := found sim; total := total sim + 1 |}
    (p + 1).
Proof.
  funelim (first_phase secretF seq sim i); intros Hi Gf Hb Gp; try lia; congruence.
Qed.

Lemma scan_le_at_break (secretF f : Z) (sim : Sim) (lin : Z) :
  lin <= f -> testBreaks secretF lin = true ->
  scan_le secretF f sim lin =
  {| simDrops := push (simDrops sim) lin; found := Some lin; total := total sim + 1 |}.
Proof.
  funelim (scan_le secretF f sim lin); intros Hl Hb; try lia;
    match goal with
    | E : probe _ _ _ = _ |- _ => unfold probe in E; rewrite Hb in E; cbn in E
    end; [| discriminate].
  match goal with E : (_, _) = (_, _) |- _ => injection E as <- end. reflexivity.
Qed.

(** X16.  When [secretF <= 0] (the ground floor, or an invalid negative
    secret) and [n > 0], [runAll] on the planned state records exactly two
    drops, the first planned floor and then floor 0, and reports floor 0. *)
Theorem runAll_secret_at_ground (n secretF : Z) :
  0 < n -> secretF <= 0 ->
  exists f0,
    get (sequence (planEffect n)) 0 = Some f0 /\
    fst (runAll n secretF (planEffect n)) =
    {| sequence := sequence (planEffect n); drops := [f0; 0];
       foundFloor := Some 0; totalDrops := 2; finished := true |}.
Proof.
  intros Hn Hs.
  pose proof (planned_nonempty n Hn) as Hne.
  destruct (sequence (planEffect n)) as [| f0 rest] eqn:Eseq; [contradiction |].
  exists f0. split; [reflexivity |].
  assert (0 <= f0) as Hf0.
  { pose proof (planned_floors n Hn 0 f0) as H. rewrite Eseq in H.
    specialize (H eq_refl). lia. }
  unfold runAll. rewrite Eseq. cbn [fst sequence].
  rewrite (first_phase_at_break secretF (f0 :: rest) _ 0 f0 (-1)).
  - rewrite scan_le_at_break; [| lia | apply testBreaks_true; lia].
    reflexivity.
  - rewrite len_cons. pose proof (len_nonneg rest). lia.
  - reflexivity.
  - apply testBreaks_true. lia.
  - reflexivity.
Qed.

Lemma runAll_secret_at_ground_witness :
  0 < 10 /\ 0 <= 0 /\
  exists f0,
    get (sequence (planEffect 10)) 0 = Some f0 /\
    fst (runAll 10 0 (planEffect 10)) =
    {| sequence := sequence (planEffect 10); drops := [f0; 0];
       foundFloor := Some 0; totalDrops := 2; finished := true |}.
Proof.
  split; [lia |]. split; [lia |]. apply (runAll_secret_at_ground 10 0); lia.
Defined.

(** ** The two versions of [step] *)

Lemma sliceFrom_len (a : list Z) (start : Z) :
  0 <= start <= len a -> len (sliceFrom a start) = len a - start.
Proof.
  intros Hs. unfold sliceFrom, slice.
  destruct (Z.ltb_spec start 0); [lia |].
  pose proof (len_nonneg a).
  destruct (Z.ltb_spec (len a) 0); [lia |].
  unfold len in *. rewrite length_firstn, length_skipn. lia.
Qed.

Lemma stepApp_phase1_eq (secretF : Z) (s : SolverState) :
  stepApp_phase1 secretF s = step_phase1 secretF s.
Proof.
  unfold stepApp_phase1, step_phase1.
  destruct (findIndex (testBreaks secretF) (drops s) =? -1); [| reflexivity].
  destruct (len (drops s) <? len (sequence s)); [| reflexivity].
  destruct (get (sequence s) (len (drops s))) as [x |]; [| reflexivity].
  cbv zeta. destruct (testBreaks secretF x); reflexivity.
Qed.

(** Where the older phase 2 block returns, the hook's either returns the same
    or falls through to the same final [finished] update. *)
Lemma stepApp_phase2_eq (secretF : Z) (s : SolverState) :
  stepApp_phase2 secretF s =
  match step_phase2 secretF s with
  | Some r => Some r
  | None =>
      if negb (findIndex (testBreaks secretF) (drops s) =? -1)
      then Some ({| sequence := sequence s; drops := drops s;
                    foundFloor := foundFloor s; totalDrops := totalDrops s;
                    finished := true |}, finishedResult)
      else None
  end.
Proof.
  unfold stepApp_phase2, step_phase2.
  destruct (Z.eqb_spec (findIndex (testBreaks secretF) (drops s)) (-1)) as [| Hne];
    [reflexivity |]. cbn [negb].
  pose proof (findIndexFrom_range (testBreaks secretF) (drops s) 0) as Hj.
  fold (findIndex (testBreaks secretF) (drops s)) in Hj.
  destruct Hj as [Hj | Hj]; [contradiction |].
  destruct (get (drops s) (findIndex (testBreaks secretF) (drops s)))
    as [breakFloor |]; [| reflexivity].
  destruct (if findIndex (testBreaks secretF) (drops s) =? 0
            then Some (-1)
            else get (drops s) (findIndex (testBreaks secretF) (drops s) - 1))
    as [prevSafe |]; [| reflexivity].
  cbv zeta. rewrite sliceFrom_len by lia.
  destruct (prevSafe + 1 + (len (drops s) - (findIndex (testBreaks secretF) (drops s) + 1))
            <=? breakFloor); [| reflexivity].
  destruct (testBreaks secretF
              (prevSafe + 1 +
               (len (drops s) - (findIndex (testBreaks secretF) (drops s) + 1))));
    reflexivity.
Qed.

Lemma stepApp_eq (secretF : Z) (s : SolverState) :
  sequence s <> [] \/ findIndex (testBreaks secretF) (drops s) = -1 ->
  stepApp secretF s = step secretF s.
Proof.
  intros H. unfold stepApp, step. destruct (finished s); [reflexivity |].
  rewrite stepApp_phase1_eq, stepApp_phase2_eq.
  destruct (Z.eqb_spec (len (sequence s)) 0) as [E | E].
  - destruct H as [H | H].
    + destruct (sequence s); [contradiction | rewrite len_cons in E].
      pose proof (len_nonneg l). lia.
    + unfold step_phase1, step_phase2. rewrite H, E. cbn [Z.eqb Pos.eqb negb].
      pose proof (len_nonneg (drops s)).
      destruct (Z.ltb_spec (len (drops s)) 0); [lia | reflexivity].
  - destruct (step_phase1 secretF s); [reflexivity |].
    destruct (step_phase2 secretF s); [reflexivity |].
    destruct (negb (findIndex (testBreaks secretF) (drops s) =? -1)); reflexivity.
Qed.

(** X17.  The [step] of the single-file app and the [step] of the hook do
    the same, state and returned description alike, on every state that has
    a non-empty sequence or no breaking drop recorded; in particular on every
    state reached by stepping from the planned state. *)
Theorem stepApp_agrees_with_step (n secretF : Z) (s : SolverState) (m : nat) :
  (sequence s <> [] \/ findIndex (testBreaks secretF) (drops s) = -1 ->
   stepApp secretF s = step secretF s) /\
  stepApp secretF (steps secretF m (planEffect n)) =
  step secretF (steps secretF m (planEffect n)).
Proof.
  split; [apply stepApp_eq |].
  apply stepApp_eq.
  assert (forall t,
             sequence t <> [] \/ drops t = [] ->
             sequence (steps secretF m t) <> [] \/ drops (steps secretF m t) = []) as H.
  { induction m as [| m IH]; intros t Ht; cbn [steps]; [assumption |].
    apply IH. destruct (step_effect secretF t) as (Es & Ed). rewrite Es.
    destruct Ht as [Ht | Ht]; [left; assumption |].
    destruct (sequence t) eqn:Eseq; [right | left; discriminate].
    unfold step, step_phase1, step_phase2. rewrite Ht, Eseq.
    destruct (finished t); [exact Ht | reflexivity]. }
  destruct (H (planEffect n)) as [Hs | Hd].
  - right. unfold planEffect. destruct (n <=? 0); reflexivity.
  - left. assumption.
  - right. rewrite Hd. reflexivity.
Qed.

Lemma stepApp_agrees_with_step_witness :
  sequence (steps 7 2 (planEffect 10)) <> [] /\
  stepApp 7 (steps 7 2 (planEffect 10)) = step 7 (steps 7 2 (planEffect 10)).
Proof.
  split; [discriminate |].
  apply (proj1 (stepApp_agrees_with_step 10 7 (steps 7 2 (planEffect 10)) 0)).
  left. discriminate.
Defined.

(** ** The building drawn by [App.tsx] *)

Lemma includes_In (a : list Z) (x : Z) : includes a x = true <-> In x a.
Proof.
  unfold includes. rewrite existsb_exists. split.
  - intros (y & Hy & E). apply Z.eqb_eq in E. subst. assumption.
  - intros H. exists x. split; [assumption | apply Z.eqb_refl].
Qed.

Lemma slice_prefix (a : list Z) (e : Z) :
  0 <= e -> slice a 0 e = firstn (Z.to_nat e) a.
Proof.
  intros He. unfold slice. pose proof (len_nonneg a).
  destruct (Z.ltb_spec 0 0); [lia |].
  destruct (Z.ltb_spec e 0); [lia |].
  replace (Z.min 0 (len a)) with 0 by lia. cbn [Z.to_nat skipn].
  rewrite Z.sub_0_r.
  destruct (Z_le_dec e (len a)).
  - replace (Z.min e (len a)) with e by lia. reflexivity.
  - replace (Z.min e (len a)) with (len a) by lia.
    unfold len in *. rewrite Nat2Z.id.
    rewrite !firstn_all2 by lia. reflexivity.
Qed.

Lemma slice_all (a : list Z) (e : Z) : len a <= e -> slice a 0 e = a.
Proof.
  intros He. pose proof (len_nonneg a). rewrite slice_prefix by lia.
  apply firstn_all2. unfold len in *. lia.
Qed.

Lemma floors_In (n x : Z) : In x (floors n) <-> 0 <= x < n.
Proof.
  unfold floors. rewrite in_map_iff. split.
  - intros (i & <- & Hi). apply in_seq in Hi. lia.
  - intros Hx. exists (Z.to_nat x). split; [lia |]. apply in_seq. lia.
Qed.

Lemma NoDup_map_of_nat (l : list nat) : NoDup l -> NoDup (map Z.of_nat l).
Proof.
  induction 1 as [| i l Hi Hl IH]; cbn [map]; constructor; [| assumption].
  rewrite in_map_iff. intros (j & E & Hj). apply Nat2Z.inj in E. subst. contradiction.
Qed.

(** X18.  The building has one row per floor: the rendered floors are exactly
    the integers [0 .. n - 1], each once, [max 0 n] of them, listed from the
    top floor down. *)
Theorem building_rows (n secretF : Z) (s : SolverState) (stepIndex : Z) :
  (forall x, In x (floors n) <-> 0 <= x < n) /\
  len (floors n) = Z.max 0 n /\
  NoDup (floors n) /\
  map floor (building n secretF s stepIndex) = rev (floors n) /\
  (0 < n -> exists rest, map floor (building n secretF s stepIndex) = (n - 1) :: rest).
Proof.
  split; [intros x; apply floors_In |].
  split; [unfold floors, len; rewrite length_map, length_seq; lia |].
  split; [apply NoDup_map_of_nat, seq_NoDup |].
  assert (map floor (building n secretF s stepIndex) = rev (floors n)) as E.
  { unfold building. rewrite map_map. cbn [floor floorProps]. apply map_id. }
  split; [assumption |].
  intros Hn. rewrite E. unfold floors.
  replace (Z.to_nat (Z.max 0 n)) with (S (Z.to_nat (n - 1))) by lia.
  rewrite seq_S, map_app, rev_app_distr. cbn [map rev app Nat.add].
  rewrite Z2Nat.id by lia. eauto.
Qed.

Lemma building_rows_witness :
  0 < 3 /\ exists rest, map floor (building 3 1 (planEffect 3) 0) = (3 - 1) :: rest.
Proof.
  split; [lia |].
  apply (proj2 (proj2 (proj2 (proj2 (building_rows 3 1 (planEffect 3) 0))))). lia.
Defined.

(** X19.  For a step index that is not negative (and [prevStep] never makes
    it negative), the drops shown are a prefix of the recorded drops, of
    length [min stepIndex drops.length]; so a floor is drawn as tested only
    if it was dropped from, and as broken only if it is at or above
    [secretF]. *)
Theorem visible_drops_prefix (secretF : Z) (s : SolverState) (stepIndex : Z) :
  0 <= stepIndex ->
  visibleDrops s stepIndex = firstn (Z.to_nat stepIndex) (drops s) /\
  len (visibleDrops s stepIndex) = Z.min stepIndex (len (drops s)) /\
  0 <= prevStep stepIndex /\
  (forall x, tested (floorProps secretF s stepIndex x) = true -> In x (drops s)) /\
  (forall x, floorBroke (floorProps secretF s stepIndex x) = true ->
             In x (drops s) /\ secretF <= x).
Proof.
  intros Hi. unfold visibleDrops.
  assert (forall x, includes (slice (drops s) 0 stepIndex) x = true -> In x (drops s)) as Hin.
  { intros x Hx. apply includes_In in Hx. rewrite slice_prefix in Hx by assumption.
    rewrite <- (firstn_skipn (Z.to_nat stepIndex) (drops s)).
    apply in_or_app. left. exact Hx. }
  split; [apply slice_prefix; assumption |].
  split; [rewrite slice_prefix by assumption; apply firstn_len; assumption |].
  split; [unfold prevStep; lia |].
  split; [intros x; cbn [tested floorProps]; apply Hin |].
  intros x. cbn [floorBroke floorProps]. unfold visibleDrops.
  rewrite andb_true_iff, Z.geb_le. intros (Hx & Hge). split; [apply Hin |]; assumption.
Qed.

Lemma visible_drops_prefix_witness :
  0 <= 2 /\
  visibleDrops (fst (runAll 10 7 (planEffect 10))) 2 =
    firstn (Z.to_nat 2) (drops (fst (runAll 10 7 (planEffect 10)))).
Proof.
  split; [lia |].
  apply (proj1 (visible_drops_prefix 7 (fst (runAll 10 7 (planEffect 10))) 2
                  ltac:(lia))).
Defined.

(** X20.  After [runAll] on a valid configuration, with every drop revealed,
    the lowest floor drawn as broken is [secretF]: the row of [secretF]
    exists and is drawn tested and broken, every row drawn broken is at or
    above it, every floor drawn as tested has a row, and no row is drawn as
    the current test. *)
Theorem view_after_runAll (n secretF stepIndex : Z) :
  0 < n -> 0 <= secretF < n ->
  len (drops (fst (runAll n secretF (planEffect n)))) <= stepIndex ->
  In secretF (floors n) /\
  tested (floorProps secretF (fst (runAll n secretF (planEffect n))) stepIndex secretF)
    = true /\
  floorBroke (floorProps secretF (fst (runAll n secretF (planEffect n))) stepIndex secretF)
    = true /\
  (forall x,
     floorBroke (floorProps secretF (fst (runAll n secretF (planEffect n))) stepIndex x)
       = true -> secretF <= x) /\
  (forall x,
     tested (floorProps secretF (fst (runAll n secretF (planEffect n))) stepIndex x)
       = true -> In x (floors n)) /\
  (forall x,
     isCurrentTest (floorProps secretF (fst (runAll n secretF (planEffect n))) stepIndex x)
       = false).
Proof.
  intros Hn Hr Hall.
  destruct (runAll_finds n secretF (planEffect n) Hr) as (_ & l & Hd).
  pose proof (runAll_range n secretF (planEffect n) (planned_in_range n)) as Hrange.
  cbn [tested floorBroke isCurrentTest floorProps]. unfold visibleDrops.
  rewrite slice_all by assumption.
  assert (includes (drops (fst (runAll n secretF (planEffect n)))) secretF = true) as Hs.
  { apply includes_In. rewrite Hd. apply in_or_app. right. left. reflexivity. }
  split; [apply floors_In; lia |].
  split; [assumption |].
  split; [rewrite Hs; cbn [andb]; apply Z.geb_le; lia |].
  split; [intros x; rewrite andb_true_iff, Z.geb_le; intros (_ & H); exact H |].
  split.
  - intros x Hx. apply includes_In in Hx. apply floors_In.
    rewrite Forall_forall in Hrange. exact (Hrange x Hx).
  - intros x. apply andb_false_r.
Qed.

Lemma view_after_runAll_witness :
  0 < 10 /\ 0 <= 7 < 10 /\
  len (drops (fst (runAll 10 7 (planEffect 10)))) <= 5 /\
  In 7 (floors 10) /\
  tested (floorProps 7 (fst (runAll 10 7 (planEffect 10))) 5 7) = true /\
  floorBroke (floorProps 7 (fst (runAll 10 7 (planEffect 10))) 5 7) = true.
Proof.
  split; [lia |]. split; [lia |]. split; [vm_compute; discriminate |].
  destruct (view_after_runAll 10 7 5) as (H1 & H2 & H3 & _);
    [lia | lia | vm_compute; discriminate |].
  split; [exact H1 |]. split; [exact H2 | exact H3].
Defined.

(** ** Stepping against [runAll] *)

(** X21.  For a valid configuration, stepping until finished installs
    exactly the state [runAll] installs when some planned floor is at or
    above [secretF]; when every planned floor is below [secretF] it stops
    after one drop per planned floor with no found floor, while [runAll]
    records more drops and finds [secretF]. *)
Theorem stepping_against_runAll (n secretF : Z) :
  0 < n -> 0 <= secretF < n ->
  ((exists i f, get (sequence (planEffect n)) i = Some f /\ secretF <= f) ->
   exists fuel,
     drive secretF fuel (planEffect n) = Some (fst (runAll n secretF (planEffect n)))) /\
  (Forall (fun x => x < secretF) (sequence (planEffect n)) ->
   exists fuel s',
     drive secretF fuel (planEffect n) = Some s' /\
     foundFloor s' = None /\
     totalDrops s' = len (sequence (planEffect n)) /\
     foundFloor (fst (runAll n secretF (planEffect n))) = Some secretF /\
     totalDrops s' < totalDrops (fst (runAll n secretF (planEffect n)))).
Proof.
  intros Hn Hr. split.
  - apply drive_agrees_when_covered; [assumption | lia].
  - apply drive_misses_when_uncovered; assumption.
Qed.

Lemma stepping_against_runAll_witness :
  0 < 10 /\ 0 <= 7 < 10 /\
  (exists i f, get (sequence (planEffect 10)) i = Some f /\ 7 <= f) /\
  exists fuel,
    drive 7 fuel (planEffect 10) = Some (fst (runAll 10 7 (planEffect 10))).
Proof.
  split; [lia |]. split; [lia |].
  assert (exists i f, get (sequence (planEffect 10)) i = Some f /\ 7 <= f) as Hc
    by (exists 1, 7; split; [reflexivity | lia]).
  split; [exact Hc |].
  apply (proj1 (stepping_against_runAll 10 7 ltac:(lia) ltac:(lia))). exact Hc.
Defined.

(** X22.  The drops are an append-only log under [step]: [m] calls leave
    the drops recorded before in place, add at most [m] drops after them, and
    raise the count by the number added. *)
Theorem steps_append_only (secretF : Z) (m : nat) (s : SolverState) :
  exists ext,
    drops (steps secretF m s) = drops s ++ ext /\
    len ext <= Z.of_nat m /\
    totalDrops (steps secretF m s) = totalDrops s + len ext.
Proof.
  revert s. induction m as [| m IH]; intros s; cbn [steps].
  - exists []. rewrite app_nil_r. change (len []) with 0. repeat split; lia.
  - destruct (IH (fst (step secretF s))) as (ext & Ed & El & Et).
    destruct (step_effect secretF s) as (_ & [(Hd & Ht) | (x & Hd & Ht)]).
    + exists ext. rewrite Ed, Et, Hd, Ht. repeat split; lia.
    + exists (x :: ext). rewrite Ed, Et, Hd, Ht, <- app_assoc, len_cons.
      repeat split; lia.
Qed.
